(** * Author verification and determination: a shallow embedding

    The statistical engine of the repository ([procedures.py], [algorithm.py]
    and [document.merge_documents]) is embedded as Rocq functions.

    - Python integers are [Z]; Python floats are modelled by exact rationals
      [Q] (rounding is not modelled).
    - A [csr_matrix] is a record with its column count and its rows.
    - Exceptions are the [Raise] results of a small error monad; the monad
      also records, in program order, every call of the chunk distance (with
      the two row indices the caller used) and every call of the two-sample
      test, so that statements about which computations an execution
      performs can be made.
    - The injected distance metric and scipy's [ks_2samp] are parameters. *)

From Stdlib Require Import String ZArith QArith Qabs Qminmax List Bool Lia.
Import ListNotations.

Local Open Scope Z_scope.

(** ** Exceptions, events and the execution monad *)

Inductive exception : Type :=
| ValueError
| ZeroDivisionError
| IndexError
| KeyError.

Inductive result (A : Type) : Type :=
| Ok (a : A)
| Raise (e : exception).

Arguments Ok {A} a.
Arguments Raise {A} e.

(** What an execution does that the claims talk about. *)
Inductive event : Type :=
| DistanceCall (i k : Z)          (* document_distance(chunks[i], chunks[k]) *)
| TstCall (z1 z2 : list Q).       (* procedures.tst(z1, z2) *)

Definition M (A : Type) : Type := (list event * result A)%type.

Definition ret {A} (a : A) : M A := ([], Ok a).
Definition raise {A} (e : exception) : M A := ([], Raise e).
Definition tell (ev : event) : M unit := ([ev], Ok tt).

Definition bind {A B} (m : M A) (f : A -> M B) : M B :=
  match m with
  | (tr, Raise e) => (tr, Raise e)
  | (tr, Ok a) => let (tr', r) := f a in (tr ++ tr', r)
  end.

Notation "x <- c1 ;; c2" := (bind c1 (fun x => c2))
  (at level 61, c1 at next level, right associativity).
Notation "' pat <- c1 ;; c2" := (bind c1 (fun x => match x with pat => c2 end))
  (at level 61, pat pattern, c1 at next level, right associativity).

Definition trace {A} (m : M A) : list event := fst m.
Definition value {A} (m : M A) : result A := snd m.

(** The list comprehension [[f(x) for x in xs]]. *)
Fixpoint mapM {A B} (f : A -> M B) (xs : list A) : M (list B) :=
  match xs with
  | [] => ret []
  | x :: xs' => y <- f x ;; ys <- mapM f xs' ;; ret (y :: ys)
  end.

(** ** Python built-ins *)

Fixpoint range_from (start step : Z) (n : nat) : list Z :=
  match n with
  | O => []
  | S n' => start :: range_from (start + step) step n'
  end.

(** Number of elements of [range(start, stop, step)], [step <> 0]. *)
Definition range_len (start stop step : Z) : Z :=
  if 0 <? step then
    if start <? stop then (stop - start - 1) / step + 1 else 0
  else
    if stop <? start then (start - stop - 1) / (- step) + 1 else 0.

Definition range_list (start stop step : Z) : list Z :=
  range_from start step (Z.to_nat (range_len start stop step)).

(** [range(start, stop, step)]: a zero step raises ValueError. *)
Definition py_range3 (start stop step : Z) : M (list Z) :=
  if step =? 0 then raise ValueError
  else ret (range_list start stop step).

(** [range(start, stop)] and [range(stop)]. *)
Definition py_range2 (start stop : Z) : list Z :=
  range_from start 1 (Z.to_nat (stop - start)).
Definition py_range1 (stop : Z) : list Z := py_range2 0 stop.

Definition len {A} (l : list A) : Z := Z.of_nat (length l).

(** [l[i]] on a Python list: a negative index counts from the end. *)
Definition list_index {A} (l : list A) (i : Z) : M A :=
  if (i <? - len l) || (len l <=? i) then raise IndexError
  else
    match nth_error l (Z.to_nat (if i <? 0 then i + len l else i)) with
    | Some a => ret a
    | None => raise IndexError
    end.

(** [max(a, b)]: the first argument unless the second is strictly larger. *)
Definition py_max (a b : Q) : Q := if Qle_bool b a then a else b.

(** A dict with integer keys, in insertion order. *)
Definition dict : Type := list (Z * Q).

Fixpoint dict_get (d : dict) (k : Z) : M Q :=
  match d with
  | [] => raise KeyError
  | (k', v) :: d' => if k =? k' then ret v else dict_get d' k
  end.

Fixpoint dict_set (d : dict) (k : Z) (v : Q) : dict :=
  match d with
  | [] => [(k, v)]
  | (k', v') :: d' =>
      if k =? k' then (k, v) :: d' else (k', v') :: dict_set d' k v
  end.

(** [max(d, key=d.get)]: the first key, in insertion order, whose value is
    maximal; ValueError on an empty dict. *)
Fixpoint max_key_from (best : Z * Q) (d : dict) : Z :=
  match d with
  | [] => fst best
  | (k, v) :: d' =>
      if Qle_bool v (snd best) then max_key_from best d'
      else max_key_from (k, v) d'
  end.

Definition max_key (d : dict) : M Z :=
  match d with
  | [] => raise ValueError
  | kv :: d' => ret (max_key_from kv d')
  end.

(** ** Sparse matrices (scipy) *)

Definition ndarray : Type := list (list Q).

Record csr_matrix : Type := {
  shape1 : Z;              (* number of columns *)
  rows : list (list Q)     (* one dense vector per row *)
}.

Definition shape0 (m : csr_matrix) : Z := len (rows m).
Definition toarray (m : csr_matrix) : ndarray := rows m.

(** [m[k]]: the k-th row as a one-row matrix; a negative index counts from
    the last row, an index outside [-shape0, shape0) raises IndexError. *)
Definition getrow (m : csr_matrix) (k : Z) : M csr_matrix :=
  if (k <? - shape0 m) || (shape0 m <=? k) then raise IndexError
  else
    match nth_error (rows m) (Z.to_nat (if k <? 0 then k + shape0 m else k)) with
    | Some r => ret {| shape1 := shape1 m; rows := [r] |}
    | None => raise IndexError
    end.

(** document.merge_documents: [sparse.vstack] refuses blocks whose column
    counts differ. *)
Definition merge_documents (document1_chunks document2_chunks : csr_matrix)
  : M csr_matrix :=
  if shape1 document1_chunks =? shape1 document2_chunks then
    ret {| shape1 := shape1 document1_chunks;
           rows := rows document1_chunks ++ rows document2_chunks |}
  else raise ValueError.

(** ** procedures.py and algorithm.py *)

Section Engine.

(** The injected metric and scipy.stats.ks_2samp (statistic, p-value). *)
Variable distance_function : ndarray -> ndarray -> Q.
Variable ks_2samp : list Q -> list Q -> Q * Q.

Definition document_distance (chunk1 chunk2 : csr_matrix) : M Q :=
  if negb (shape1 chunk1 =? shape1 chunk2) then raise ValueError
  else ret (distance_function (toarray chunk1) (toarray chunk2)).

(** The body of [for j in range(time): sum += ...]. *)
Fixpoint zv_loop (chunks : csr_matrix) (i : Z) (js : list Z) (sum : Q)
  : M Q :=
  match js with
  | [] => ret sum
  | j :: js' =>
      c1 <- getrow chunks i ;;
      c2 <- getrow chunks (i - j) ;;
      _ <- tell (DistanceCall i (i - j)) ;;
      d <- document_distance c1 c2 ;;
      zv_loop chunks i js' (sum + d)%Q
  end.

Definition zv_function (chunks : csr_matrix) (time i : Z) : M Q :=
  sum <- zv_loop chunks i (py_range1 time) 0%Q ;;
  if time =? 0 then raise ZeroDivisionError
  else ret ((1 / inject_Z time) * sum)%Q.

Definition zv_z1 (all_chunks document : csr_matrix) (time : Z)
  : M (list Q) :=
  mapM (fun i => zv_function all_chunks time i)
       (py_range2 (time + 1) (shape0 document)).

Definition zv_z2 (all_chunks document : csr_matrix) (time : Z)
  : M (list Q) :=
  mapM (fun i => zv_function all_chunks time i)
       (py_range2 (shape0 document + 1) (shape0 all_chunks)).

Definition tst (z1 z2 : list Q) : M (bool * Q) :=
  _ <- tell (TstCall z1 z2) ;;
  let p_value := snd (ks_2samp z1 z2) in
  ret (Qle_bool (5 # 100) p_value, p_value).

(** The sweep of author_verification; [break] and the end of the range
    both lead to the final [return False, last_pvalue]. *)
Fixpoint av_loop (all_chunks document1_chunks : csr_matrix)
         (times : list Z) (last_pvalue : Q) : M (bool * Q) :=
  match times with
  | [] => ret (false, last_pvalue)
  | time :: times' =>
      if shape0 document1_chunks <=? time then ret (false, last_pvalue)
      else
        z1 <- zv_z1 all_chunks document1_chunks time ;;
        z2 <- zv_z2 all_chunks document1_chunks time ;;
        if (len z1 =? 0) || (len z2 =? 0) then ret (false, last_pvalue)
        else
          '(h, p_value) <- tst z1 z2 ;;
          if h : bool then ret (true, p_value)
          else av_loop all_chunks document1_chunks times'
                       (py_max last_pvalue p_value)
  end.

Definition author_verification (document1_chunks document2_chunks : csr_matrix)
           (time_start time_end delta_time : Z) : M (bool * Q) :=
  all_chunks <- merge_documents document1_chunks document2_chunks ;;
  times <- py_range3 time_start time_end delta_time ;;
  av_loop all_chunks document1_chunks times (-1)%Q.

(** The candidate loop of author_determination; the boolean is [stop]. *)
Fixpoint ad_inner (document : csr_matrix) (all_documents : list csr_matrix)
         (time time_end delta_time : Z) (cands : list Z)
         (positive_matches : dict) : M (dict * bool) :=
  match cands with
  | [] => ret (positive_matches, false)
  | i :: cands' =>
      candidate <- list_index all_documents i ;;
      '(h, match_value) <-
        author_verification candidate document time time_end delta_time ;;
      if h : bool then
        old <- dict_get positive_matches i ;;
        let positive_matches' :=
          dict_set positive_matches i (py_max match_value old) in
        if Qle_bool (99 # 100) match_value then ret (positive_matches', true)
        else ad_inner document all_documents time time_end delta_time cands'
                      positive_matches'
      else ad_inner document all_documents time time_end delta_time cands'
                    positive_matches
  end.

Fixpoint ad_outer (document : csr_matrix) (all_documents : list csr_matrix)
         (time_end delta_time : Z) (times : list Z)
         (positive_matches : dict) : M dict :=
  match times with
  | [] => ret positive_matches
  | time :: times' =>
      '(positive_matches', stop) <-
        ad_inner document all_documents time time_end delta_time
                 (py_range1 (len all_documents)) positive_matches ;;
      if stop : bool then ret positive_matches'
      else ad_outer document all_documents time_end delta_time times'
                    positive_matches'
  end.

Definition author_determination (document : csr_matrix)
           (all_documents : list csr_matrix) (all_authors : list string)
           (time_start time_end delta_time : Z)
  : M (option string * dict) :=
  let positive_matches :=
    map (fun i => (i, 0%Q)) (py_range1 (len all_authors)) in
  times <- py_range3 time_start time_end delta_time ;;
  positive_matches <-
    ad_outer document all_documents time_end delta_time times
             positive_matches ;;
  best_author_i <- max_key positive_matches ;;
  best <- dict_get positive_matches best_author_i ;;
  if Qeq_bool best 0 then ret (None, positive_matches)
  else
    author <- list_index all_authors best_author_i ;;
    ret (Some author, positive_matches).

End Engine.


(** * The specification's vocabulary

    The definitions below follow the words of the specification; the
    theorems relate them to the embedding of the code above. *)

(** The chunk a (possibly negative) Python index designates. *)
Definition chunk_at (chunks : csr_matrix) (k : Z) : list Q :=
  nth (Z.to_nat (if k <? 0 then k + shape0 chunks else k)) (rows chunks) [].

(** The merged sequence of two documents. *)
Definition merged (documentA documentB : csr_matrix) : csr_matrix :=
  {| shape1 := shape1 documentA; rows := rows documentA ++ rows documentB |}.

(** [big_sum n f] is f(0) + f(1) + ... + f(n-1), summed from 0 upwards. *)
Fixpoint big_sum (n : nat) (f : Z -> Q) : Q :=
  match n with
  | O => 0
  | S n' => big_sum n' f + f (Z.of_nat n')
  end.

(** The two-sample tests an execution ran, in order. *)
Definition tests_of (tr : list event) : list (list Q * list Q) :=
  flat_map (fun ev => match ev with
                      | TstCall z1 z2 => [(z1, z2)]
                      | DistanceCall _ _ => []
                      end) tr.

(** The window of a distance call stays clear of index 0: the second
    index is at least 2 for a target chunk of document A (fewer than [m1]
    chunks before it) and at least 3 for a target chunk of document B. *)
Definition window_clear (m1 : Z) (ev : event) : Prop :=
  match ev with
  | DistanceCall i k => (i < m1 /\ 2 <= k) \/ (m1 < i /\ 3 <= k)
  | TstCall _ _ => True
  end.

(** The second index of a distance call is not negative: the lookup does
    not wrap around. *)
Definition no_wraparound (ev : event) : Prop :=
  match ev with
  | DistanceCall _ k => 0 <= k
  | TstCall _ _ => True
  end.

(** A score that does not yet end the Determiner's search. *)
Definition below_stop (entry : Z * Q) : Prop := (snd entry < 99 # 100)%Q.

(** The running maximum kept in [last_pvalue]. *)
Definition running_max (init : Q) (ps : list Q) : Q := fold_left py_max ps init.

Section Vocabulary.

Variable distance_function : ndarray -> ndarray -> Q.
Variable ks_2samp : list Q -> list Q -> Q * Q.

(** The metric applied to two chunks (each presented as a 1 x n array). *)
Definition ChunkDistance (c1 c2 : list Q) : Q := distance_function [c1] [c2].

(** ZV(i, time) = (1/time) * sum_{j=0..time-1} ChunkDistance(chunk[i], chunk[i-j]). *)
Definition ZV (chunks : csr_matrix) (i time : Z) : Q :=
  (1 / inject_Z time) *
  big_sum (Z.to_nat time)
          (fun j => ChunkDistance (chunk_at chunks i) (chunk_at chunks (i - j))).

(** The distance calls of one evaluation of the statistic. *)
Definition zv_calls (time i : Z) : list event :=
  map (fun j => DistanceCall i (i - j)) (py_range1 time).

(** Sample_1 and Sample_2 for documents of m1 and m2 chunks. *)
Definition Sample1 (chunks : csr_matrix) (m1 time : Z) : list Q :=
  map (fun i => ZV chunks i time) (py_range2 (time + 1) m1).

Definition Sample2 (chunks : csr_matrix) (m1 m2 time : Z) : list Q :=
  map (fun i => ZV chunks i time) (py_range2 (m1 + 1) (m1 + m2)).

(** The samples and the p-value of the sweep step at [time]. *)
Definition step_z1 (dA dB : csr_matrix) (time : Z) : list Q :=
  Sample1 (merged dA dB) (shape0 dA) time.
Definition step_z2 (dA dB : csr_matrix) (time : Z) : list Q :=
  Sample2 (merged dA dB) (shape0 dA) (shape0 dB) time.
Definition step_pvalue (dA dB : csr_matrix) (time : Z) : Q :=
  snd (ks_2samp (step_z1 dA dB time) (step_z2 dA dB time)).

(** A step is evaluated when the window fits document A and neither
    sample is empty. *)
Definition evaluable (dA dB : csr_matrix) (time : Z) : Prop :=
  time < shape0 dA /\ step_z1 dA dB time <> [] /\ step_z2 dA dB time <> [].

(** The test signals a match at [time]. *)
Definition signals (dA dB : csr_matrix) (time : Z) : Prop :=
  (5 # 100 <= step_pvalue dA dB time)%Q.

(** The distance calls of the two sample builders at [time]. *)
Definition builder_events (dA dB : csr_matrix) (time : Z) : list event :=
  flat_map (zv_calls time) (py_range2 (time + 1) (shape0 dA)) ++
  flat_map (zv_calls time) (py_range2 (shape0 dA + 1) (shape0 dA + shape0 dB)).

(** What an evaluated step does: the distances of both samples, then
    the test. *)
Definition step_events (dA dB : csr_matrix) (time : Z) : list event :=
  builder_events dA dB time ++
  [TstCall (step_z1 dA dB time) (step_z2 dA dB time)].

(** What the step that stops the sweep does: nothing when the window
    does not fit document A, else the two builders (one sample is empty). *)
Definition abort_events (dA dB : csr_matrix) (time : Z) : list event :=
  if shape0 dA <=? time then [] else builder_events dA dB time.

(** A step that was evaluated and did not signal a match. *)
Definition passed (dA dB : csr_matrix) (time : Z) : Prop :=
  evaluable dA dB time /\ ~ signals dA dB time.

(** The score map the Determiner starts from. *)
Definition zero_scores (n : Z) : dict := map (fun i => (i, 0%Q)) (py_range1 n).

(** The Determiner's search in the specification's words: the pairs
    (time, candidate) are visited in sweep order, the outer time first;
    each visit runs the Verifier on the candidate and the unknown document
    with the outer [time] as sweep start and the original end and step; a
    match updates the candidate's score to the maximum of its score and
    the confidence; an updated score of 0.99 or more ends the whole
    search. *)
Fixpoint determination_search (document : csr_matrix)
         (all_documents : list csr_matrix) (time_end delta_time : Z)
         (visits : list (Z * Z)) (scores : dict) : M dict :=
  match visits with
  | [] => ret scores
  | (time, i) :: visits' =>
      candidate <- list_index all_documents i ;;
      '(matched, confidence) <-
        author_verification distance_function ks_2samp candidate document
                            time time_end delta_time ;;
      if matched : bool then
        current <- dict_get scores i ;;
        let updated := py_max confidence current in
        if Qle_bool (99 # 100) updated then ret (dict_set scores i updated)
        else determination_search document all_documents time_end delta_time
                                  visits' (dict_set scores i updated)
      else determination_search document all_documents time_end delta_time
                                visits' scores
  end.

(** The selection after the search: the candidate with the maximum score;
    no author when that maximum is exactly 0, else the candidate's author;
    the score map is returned in both cases. *)
Definition determination_selection (all_authors : list string) (scores : dict)
  : M (option string * dict) :=
  best_candidate <- max_key scores ;;
  best_score <- dict_get scores best_candidate ;;
  if Qeq_bool best_score 0 then ret (None, scores)
  else
    author <- list_index all_authors best_candidate ;;
    ret (Some author, scores).

(** A score is the default 0 or the confidence of a positive verification
    of that candidate at some swept time. *)
Definition score_origin (document : csr_matrix)
           (all_documents : list csr_matrix) (times : list Z)
           (time_end delta_time : Z) (entry : Z * Q) : Prop :=
  snd entry = 0%Q \/
  exists time candidate,
    In time times /\
    0 <= fst entry /\
    nth_error all_documents (Z.to_nat (fst entry)) = Some candidate /\
    value (author_verification distance_function ks_2samp candidate document
                               time time_end delta_time)
    = Ok (true, snd entry).

(** What the Determiner's loops maintain: one key per candidate, in
    order, and scores of known origin. *)
Definition scores_ok (document : csr_matrix) (all_documents : list csr_matrix)
           (times : list Z) (time_end delta_time n : Z) (pm : dict) : Prop :=
  map fst pm = py_range1 n /\
  Forall (score_origin document all_documents times time_end delta_time) pm.

End Vocabulary.

(** * Concrete instances

    [canberra] follows distance.canberra (scipy's definition on the
    flattened 1 x n arrays; a term with both entries zero contributes 0).
    [ks_2samp_surrogate] stands in for scipy.stats.ks_2samp when the model
    is run on concrete inputs: its statistic is the exact two-sample
    Kolmogorov-Smirnov statistic D, and in place of scipy's p-value it
    gives 1 - D clipped to [0, 1].  The theorems are stated for an
    arbitrary [ks_2samp]. *)

Local Open Scope Q_scope.

Fixpoint canberra_vec (p q : list Q) : Q :=
  match p, q with
  | x :: p', y :: q' =>
      (if Qeq_bool (Qabs x + Qabs y) 0 then 0
       else Qabs (x - y) / (Qabs x + Qabs y)) + canberra_vec p' q'
  | _, _ => 0
  end.

Definition canberra (chunk1 chunk2 : ndarray) : Q :=
  Qred (canberra_vec (concat chunk1) (concat chunk2)).

Definition ecdf (z : list Q) (x : Q) : Q :=
  inject_Z (len (filter (fun y => Qle_bool y x) z)) / inject_Z (len z).

Definition ks_statistic (z1 z2 : list Q) : Q :=
  fold_left Qmax (map (fun x => Qabs (ecdf z1 x - ecdf z2 x)) (z1 ++ z2)) 0.

Definition ks_2samp_surrogate (z1 z2 : list Q) : Q * Q :=
  let d := Qred (ks_statistic z1 z2) in
  (d, Qred (Qmax 0 (Qmin 1 (1 - d)))).

(** Two documents over a vocabulary of two terms. *)
Definition docA : csr_matrix :=
  {| shape1 := 2; rows := [[1; 0]; [1; 1]; [0; 1]; [1; 2]; [2; 1]] |}.
Definition docB : csr_matrix :=
  {| shape1 := 2; rows := [[1; 0]; [1; 1]; [0; 1]; [1; 2]] |}.
Definition docC : csr_matrix :=
  {| shape1 := 2; rows := [[5; 0]; [0; 5]; [5; 5]; [0; 1]; [7; 0]; [0; 9]] |}.

Local Close Scope Q_scope.

(** Documents of a single chunk. *)
Definition doc1A : csr_matrix := {| shape1 := 2; rows := [[1%Q; 0%Q]] |}.
Definition doc1B : csr_matrix := {| shape1 := 2; rows := [[0%Q; 1%Q]] |}.
(** * Properties *)

(** ** The execution monad *)

Lemma bind_ok {A B} (m : M A) (f : A -> M B) tr a :
  m = (tr, Ok a) -> bind m f = (tr ++ trace (f a), value (f a)).
Proof. intros ->. unfold bind, trace, value. now destruct (f a). Qed.

Lemma bind_raise {A B} (m : M A) (f : A -> M B) tr e :
  m = (tr, Raise e) -> bind m f = (tr, Raise e).
Proof. now intros ->. Qed.

Lemma bind_ret {A B} (a : A) (f : A -> M B) : bind (ret a) f = f a.
Proof. unfold bind, ret. now destruct (f a). Qed.

Lemma bind_tell {B} ev (f : unit -> M B) :
  bind (tell ev) f = (ev :: trace (f tt), value (f tt)).
Proof. unfold bind, tell, trace, value. now destruct (f tt). Qed.

Lemma pair_trace_value {A} (m : M A) : m = (trace m, value m).
Proof. now destruct m. Qed.

(** An event of [bind m f] comes from [m], or from [f] run on the value
    of [m]. *)
Lemma in_trace_bind {A B} (m : M A) (f : A -> M B) ev :
  In ev (trace (bind m f)) ->
  In ev (trace m) \/ exists a, value m = Ok a /\ In ev (trace (f a)).
Proof.
  destruct m as [tr [a|e]]; cbn.
  - destruct (f a) as [tr' r] eqn:E; cbn. intros H.
    apply in_app_or in H as [H|H]; [now left|right].
    exists a. now rewrite E.
  - now left.
Qed.

Lemma value_bind_ok {A B} (m : M A) (f : A -> M B) b :
  value (bind m f) = Ok b ->
  exists a, value m = Ok a /\ value (f a) = Ok b.
Proof.
  destruct m as [tr [a|e]]; cbn.
  - destruct (f a) as [tr' r] eqn:E; cbn. intros ->. exists a. now rewrite E.
  - discriminate.
Qed.

Lemma mapM_ok {A B} (f : A -> M B) (tr : A -> list event) (g : A -> B) xs :
  (forall x, In x xs -> f x = (tr x, Ok (g x))) ->
  mapM f xs = (flat_map tr xs, Ok (map g xs)).
Proof.
  induction xs as [|x xs IH]; intros H; [reflexivity|].
  cbn [mapM flat_map map].
  rewrite (bind_ok _ _ _ _ (H x (or_introl eq_refl))).
  rewrite IH by (intros; apply H; now right).
  cbn. now rewrite app_nil_r.
Qed.

Lemma in_trace_mapM {A B} (f : A -> M B) xs ev :
  In ev (trace (mapM f xs)) -> exists x, In x xs /\ In ev (trace (f x)).
Proof.
  induction xs as [|x xs IH]; cbn [mapM]; [intros []|].
  intros H. apply in_trace_bind in H as [H|(y & _ & H)].
  - exists x. split; [now left|assumption].
  - apply in_trace_bind in H as [H|(ys & _ & [])].
    destruct (IH H) as (x' & Hin & Hev). exists x'. split; [now right|assumption].
Qed.

(** ** Ranges *)

Lemma range_from_length start step n : length (range_from start step n) = n.
Proof. revert start; induction n; intros; cbn; [reflexivity|now rewrite IHn]. Qed.

Lemma in_range_from start step n x :
  In x (range_from start step n) <->
  exists k, (k < n)%nat /\ x = start + Z.of_nat k * step.
Proof.
  revert start; induction n as [|n IH]; intros start; cbn.
  - split; [intros []|intros (k & Hk & _); lia].
  - rewrite IH. split.
    + intros [<-|(k & Hk & ->)]; [exists O|exists (S k)]; split; lia.
    + intros ([|k] & Hk & ->); [left; lia|right; exists k; split; lia].
Qed.

Lemma range_from_snoc start step n :
  range_from start step (S n) =
  range_from start step n ++ [start + Z.of_nat n * step].
Proof.
  revert start; induction n as [|n IH]; intros start.
  - cbn. now rewrite Z.add_0_r.
  - change (range_from start step (S (S n)))
      with (start :: range_from (start + step) step (S n)).
    rewrite IH. cbn [range_from app].
    replace (start + step + Z.of_nat n * step)
      with (start + Z.of_nat (S n) * step) by lia.
    reflexivity.
Qed.

Lemma in_py_range2 start stop x :
  In x (py_range2 start stop) <-> start <= x < stop.
Proof.
  unfold py_range2. rewrite in_range_from. split.
  - intros (k & Hk & ->). lia.
  - intros H. exists (Z.to_nat (x - start)). split; lia.
Qed.

Lemma in_py_range1 stop x : In x (py_range1 stop) <-> 0 <= x < stop.
Proof. apply in_py_range2. Qed.

Lemma py_range2_length start stop :
  len (py_range2 start stop) = Z.max 0 (stop - start).
Proof. unfold len, py_range2. rewrite range_from_length. lia. Qed.

Lemma py_range2_nil start stop : stop <= start -> py_range2 start stop = [].
Proof.
  intros H. unfold py_range2.
  replace (Z.to_nat (stop - start)) with O by lia. reflexivity.
Qed.

(** The elements of an ascending range before a given one are smaller,
    and none is below the start. *)
Lemma range_from_sorted start step n pre t post :
  0 < step -> range_from start step n = pre ++ t :: post ->
  Forall (fun u => u < t) pre.
Proof.
  intros Hs. revert start pre; induction n as [|n IH]; intros start pre H.
  - destruct pre; discriminate.
  - destruct pre as [|u pre]; [constructor|].
    cbn in H. injection H as <- H. constructor.
    + assert (Hin : In t (range_from (start + step) step n))
        by (rewrite H; apply in_or_app; right; now left).
      apply in_range_from in Hin as (k & _ & ->). nia.
    + eapply IH, H.
Qed.

Lemma range_from_lower start step n x :
  0 < step -> In x (range_from start step n) -> start <= x.
Proof. intros Hs (k & _ & ->)%in_range_from. nia. Qed.

Lemma py_range3_ok start stop step :
  step <> 0 -> py_range3 start stop step = ret (range_list start stop step).
Proof. intros H. unfold py_range3. now destruct (Z.eqb_spec step 0). Qed.

(** With a positive step the swept values are start, start + step, ...
    below stop. *)
Lemma in_range_list start stop step x :
  0 < step ->
  In x (range_list start stop step) <->
  exists k, 0 <= k /\ x = start + k * step /\ x < stop.
Proof.
  intros Hs. unfold range_list, range_len. rewrite in_range_from.
  destruct (Z.ltb_spec 0 step); [|lia].
  destruct (Z.ltb_spec start stop).
  - pose proof (Z.div_mod (stop - start - 1) step ltac:(lia)) as Hdm.
    pose proof (Z.mod_pos_bound (stop - start - 1) step Hs) as Hr.
    set (q := (stop - start - 1) / step) in *.
    assert (0 <= q) by (apply Z.div_pos; lia).
    split.
    + intros (k & Hk & ->). exists (Z.of_nat k). split; [lia|split; [reflexivity|]].
      assert (Z.of_nat k <= q) by lia. nia.
    + intros (k & Hk & -> & Hlt). exists (Z.to_nat k). split; [|lia].
      assert (k <= q) by nia. lia.
  - split.
    + intros (k & Hk & _). lia.
    + intros (k & Hk & -> & Hlt). nia.
Qed.

Lemma range_list_positive start stop step x :
  0 < start -> 0 < step -> In x (range_list start stop step) -> 0 < x.
Proof. intros H0 Hs H. apply range_from_lower in H; lia. Qed.

(** ** Row access and the windowed statistic *)

Lemma shape0_merged dA dB : shape0 (merged dA dB) = shape0 dA + shape0 dB.
Proof. unfold shape0, merged, len; cbn. rewrite length_app. lia. Qed.

Lemma shape0_nonneg m : 0 <= shape0 m.
Proof. unfold shape0, len. lia. Qed.

Lemma merge_documents_ok dA dB :
  shape1 dA = shape1 dB -> merge_documents dA dB = ret (merged dA dB).
Proof.
  intros H. unfold merge_documents.
  now destruct (Z.eqb_spec (shape1 dA) (shape1 dB)).
Qed.

Lemma getrow_ok m k :
  - shape0 m <= k < shape0 m ->
  getrow m k = ret {| shape1 := shape1 m; rows := [chunk_at m k] |}.
Proof.
  intros H. unfold getrow, chunk_at.
  destruct (Z.ltb_spec k (- shape0 m)); [lia|].
  destruct (Z.leb_spec (shape0 m) k); [lia|]. cbn [orb].
  set (n := Z.to_nat _).
  assert (Hn : (n < length (rows m))%nat).
  { subst n. unfold shape0, len in *. destruct (Z.ltb_spec k 0); lia. }
  now rewrite (nth_error_nth' _ [] Hn).
Qed.

Lemma getrow_index_error m k :
  k < - shape0 m \/ shape0 m <= k -> getrow m k = raise IndexError.
Proof.
  intros H. unfold getrow.
  destruct (Z.ltb_spec k (- shape0 m)); [reflexivity|].
  destruct (Z.leb_spec (shape0 m) k); [reflexivity|lia].
Qed.

Section StatisticFacts.

Variable dist : ndarray -> ndarray -> Q.


(** Rows of one matrix always agree on their dimension. *)
Lemma document_distance_rows m a b :
  document_distance dist
    {| shape1 := shape1 m; rows := [a] |} {| shape1 := shape1 m; rows := [b] |}
  = ret (ChunkDistance dist a b).
Proof. unfold document_distance; cbn. now rewrite Z.eqb_refl. Qed.

Lemma zv_loop_ok chunks i js sum :
  (js <> [] -> - shape0 chunks <= i < shape0 chunks) ->
  (forall j, In j js -> - shape0 chunks <= i - j < shape0 chunks) ->
  zv_loop dist chunks i js sum =
  (map (fun j => DistanceCall i (i - j)) js,
   Ok (fold_left
         (fun acc j =>
            acc + ChunkDistance dist (chunk_at chunks i) (chunk_at chunks (i - j)))%Q
         js sum)).
Proof.
  revert sum; induction js as [|j js IH]; intros sum Hi Hj; [reflexivity|].
  cbn [zv_loop map fold_left].
  rewrite (getrow_ok chunks i) by (apply Hi; discriminate).
  rewrite bind_ret.
  rewrite (getrow_ok chunks (i - j)) by (apply Hj; now left).
  rewrite bind_ret.
  rewrite document_distance_rows, bind_tell, bind_ret.
  rewrite IH.
  - reflexivity.
  - intros _. apply Hi. discriminate.
  - intros j' Hj'. apply Hj. now right.
Qed.

Lemma fold_left_big_sum (f : Z -> Q) n :
  fold_left (fun acc j => acc + f j)%Q (range_from 0 1 n) 0%Q = big_sum n f.
Proof.
  induction n as [|n IH]; [reflexivity|].
  rewrite range_from_snoc, fold_left_app, IH. cbn.
  now rewrite Z.mul_1_r.
Qed.

(** For a positive window whose indices all designate a chunk, the code
    computes ZV, calling the distance once for each j = 0 .. time-1. *)
Lemma zv_function_ok chunks time i :
  1 <= time ->
  - shape0 chunks <= i < shape0 chunks ->
  - shape0 chunks <= i - (time - 1) ->
  zv_function dist chunks time i = (zv_calls time i, Ok (ZV dist chunks i time)).
Proof.
  intros Ht Hi Hlow. unfold zv_function.
  rewrite (bind_ok _ _ _ _ (zv_loop_ok chunks i (py_range1 time) 0%Q
                              (fun _ => Hi)
                              ltac:(intros j Hj%in_py_range1; lia))).
  destruct (Z.eqb_spec time 0); [lia|].
  cbn [trace value ret fst snd]. rewrite app_nil_r.
  unfold zv_calls, ZV. do 3 f_equal.
  unfold py_range1, py_range2. rewrite Z.sub_0_r.
  apply (fold_left_big_sum
           (fun j => ChunkDistance dist (chunk_at chunks i) (chunk_at chunks (i - j)))).
Qed.

Lemma zv_function_zero chunks i :
  zv_function dist chunks 0 i = raise ZeroDivisionError.
Proof. reflexivity. Qed.

Lemma zv_function_negative chunks time i :
  time < 0 ->
  zv_function dist chunks time i = ret ((1 / inject_Z time) * 0)%Q.
Proof.
  intros H. unfold zv_function, py_range1.
  rewrite py_range2_nil by lia. cbn.
  destruct (Z.eqb_spec time 0); [lia|reflexivity].
Qed.

End StatisticFacts.

(** ** The sample builders *)

Section SampleFacts.

Variable dist : ndarray -> ndarray -> Q.

(** A negative window makes no distance call; the value is (1/time) * 0,
    which is also what the defining formula gives for an empty sum. *)
Lemma zv_function_defined chunks time i :
  time <> 0 ->
  (1 <= time ->
   - shape0 chunks <= i < shape0 chunks /\ - shape0 chunks <= i - (time - 1)) ->
  zv_function dist chunks time i = (zv_calls time i, Ok (ZV dist chunks i time)).
Proof.
  intros Hnz H. destruct (Z_lt_le_dec time 1) as [Hneg|Hpos].
  - rewrite zv_function_negative by lia.
    unfold zv_calls, ZV, py_range1. rewrite py_range2_nil by lia.
    replace (Z.to_nat time) with O by lia. reflexivity.
  - destruct (H Hpos). now apply zv_function_ok.
Qed.

Lemma zv_z1_ok all_chunks document time :
  time <> 0 ->
  shape0 document <= shape0 all_chunks ->
  zv_z1 dist all_chunks document time =
  (flat_map (zv_calls time) (py_range2 (time + 1) (shape0 document)),
   Ok (Sample1 dist all_chunks (shape0 document) time)).
Proof.
  intros Ht Hle. unfold zv_z1, Sample1.
  apply (mapM_ok (fun i => zv_function dist all_chunks time i)
                 (zv_calls time) (fun i => ZV dist all_chunks i time)).
  intros i Hi%in_py_range2. apply zv_function_defined; [assumption|lia].
Qed.

Lemma zv_z2_ok all_chunks document m2 time :
  time <> 0 ->
  shape0 all_chunks = shape0 document + m2 ->
  time <= 2 * shape0 document + m2 + 2 ->
  zv_z2 dist all_chunks document time =
  (flat_map (zv_calls time)
            (py_range2 (shape0 document + 1) (shape0 document + m2)),
   Ok (Sample2 dist all_chunks (shape0 document) m2 time)).
Proof.
  intros Ht Hn Hle. unfold zv_z2, Sample2. rewrite Hn.
  apply (mapM_ok (fun i => zv_function dist all_chunks time i)
                 (zv_calls time) (fun i => ZV dist all_chunks i time)).
  intros i Hi%in_py_range2. apply zv_function_defined; [assumption|].
  pose proof (shape0_nonneg document). lia.
Qed.

Lemma Sample1_length chunks m1 time :
  len (Sample1 dist chunks m1 time) = Z.max 0 (m1 - time - 1).
Proof.
  unfold Sample1, len. rewrite length_map.
  fold (len (py_range2 (time + 1) m1)). rewrite py_range2_length. lia.
Qed.

Lemma Sample2_length chunks m1 m2 time :
  len (Sample2 dist chunks m1 m2 time) = Z.max 0 (m2 - 1).
Proof.
  unfold Sample2, len. rewrite length_map.
  fold (len (py_range2 (m1 + 1) (m1 + m2))). rewrite py_range2_length. lia.
Qed.

(** *** Which distance calls the builders make, whatever the outcome *)

Lemma trace_getrow m k : trace (getrow m k) = [].
Proof.
  unfold getrow. destruct (_ || _); [reflexivity|].
  now destruct (nth_error _ _).
Qed.

Lemma trace_document_distance c1 c2 : trace (document_distance dist c1 c2) = [].
Proof. unfold document_distance. now destruct (negb _). Qed.

Lemma in_trace_zv_loop chunks i js sum ev :
  In ev (trace (zv_loop dist chunks i js sum)) ->
  exists j, In j js /\ ev = DistanceCall i (i - j).
Proof.
  revert sum; induction js as [|j js IH]; intros sum; cbn [zv_loop]; [intros []|].
  intros H.
  apply in_trace_bind in H as [H|(c1 & _ & H)];
    [now rewrite trace_getrow in H|].
  apply in_trace_bind in H as [H|(c2 & _ & H)];
    [now rewrite trace_getrow in H|].
  rewrite bind_tell in H. cbn [trace fst] in H. destruct H as [<-|H].
  - exists j. split; [now left|reflexivity].
  - apply in_trace_bind in H as [H|(d & _ & H)];
      [now rewrite trace_document_distance in H|].
    destruct (IH _ H) as (j' & Hj' & ->). exists j'. split; [now right|reflexivity].
Qed.

Lemma in_trace_zv_function chunks time i ev :
  In ev (trace (zv_function dist chunks time i)) ->
  exists j, 0 <= j < time /\ ev = DistanceCall i (i - j).
Proof.
  unfold zv_function. intros H.
  apply in_trace_bind in H as [H|(s & _ & H)].
  - apply in_trace_zv_loop in H as (j & Hj%in_py_range1 & ->). now exists j.
  - now destruct (time =? 0).
Qed.

Lemma in_trace_zv_z1 all_chunks document time ev :
  In ev (trace (zv_z1 dist all_chunks document time)) ->
  exists i j, time + 1 <= i < shape0 document /\ 0 <= j < time /\
              ev = DistanceCall i (i - j).
Proof.
  unfold zv_z1. intros (i & Hi%in_py_range2 & H)%in_trace_mapM.
  apply in_trace_zv_function in H as (j & Hj & ->). now exists i, j.
Qed.

Lemma in_trace_zv_z2 all_chunks document time ev :
  In ev (trace (zv_z2 dist all_chunks document time)) ->
  exists i j, shape0 document + 1 <= i < shape0 all_chunks /\ 0 <= j < time /\
              ev = DistanceCall i (i - j).
Proof.
  unfold zv_z2. intros (i & Hi%in_py_range2 & H)%in_trace_mapM.
  apply in_trace_zv_function in H as (j & Hj & ->). now exists i, j.
Qed.

End SampleFacts.

(** ** The running maximum *)

Lemma py_max_cases a b : py_max a b = a \/ py_max a b = b.
Proof. unfold py_max. destruct (Qle_bool b a); auto. Qed.

Lemma py_max_upper a b : (a <= py_max a b /\ b <= py_max a b)%Q.
Proof.
  unfold py_max. destruct (Qle_bool b a) eqn:E.
  - apply Qle_bool_iff in E. split; [apply Qle_refl|assumption].
  - split; [|apply Qle_refl].
    destruct (Qlt_le_dec a b) as [H|H]; [now apply Qlt_le_weak|].
    apply Qle_bool_iff in H. congruence.
Qed.

Lemma running_max_in init ps : In (running_max init ps) (init :: ps).
Proof.
  revert init; induction ps as [|p ps IH]; intros init; [now left|].
  cbn [running_max fold_left]. fold (running_max (py_max init p) ps).
  destruct (IH (py_max init p)) as [H|H].
  - rewrite <- H. destruct (py_max_cases init p) as [-> | ->];
      [now left|right; now left].
  - right; now right.
Qed.

Lemma running_max_upper init ps :
  (init <= running_max init ps)%Q /\
  Forall (fun p => (p <= running_max init ps)%Q) ps.
Proof.
  revert init; induction ps as [|p ps IH]; intros init.
  - split; [apply Qle_refl|constructor].
  - cbn [running_max fold_left]. fold (running_max (py_max init p) ps).
    destruct (IH (py_max init p)) as [H1 H2].
    destruct (py_max_upper init p) as [Ha Hb].
    split; [eapply Qle_trans; eassumption|].
    constructor; [eapply Qle_trans; eassumption|assumption].
Qed.

(** Above a strict lower bound, the running maximum is the maximum of a
    non-empty list. *)
Lemma running_max_is_max init ps :
  ps <> [] -> Forall (fun p => (init < p)%Q) ps ->
  In (running_max init ps) ps /\
  Forall (fun p => (p <= running_max init ps)%Q) ps.
Proof.
  intros Hne Hlt. destruct (running_max_upper init ps) as [_ Hub].
  split; [|assumption].
  destruct (running_max_in init ps) as [H|H]; [|assumption].
  destruct ps as [|p ps]; [contradiction|].
  inversion Hlt as [|? ? Hp _]; subst.
  inversion Hub as [|? ? Hq _]; subst.
  rewrite <- H in Hq. exfalso. eapply Qlt_not_le; eassumption.
Qed.

(** ** Tests in a trace *)

Lemma tests_of_app tr1 tr2 : tests_of (tr1 ++ tr2) = tests_of tr1 ++ tests_of tr2.
Proof. unfold tests_of. apply flat_map_app. Qed.

Lemma tests_of_zv_calls time idxs :
  tests_of (flat_map (zv_calls time) idxs) = [].
Proof.
  induction idxs as [|i idxs IH]; [reflexivity|].
  cbn [flat_map]. rewrite tests_of_app, IH, app_nil_r.
  unfold zv_calls. induction (py_range1 time); [reflexivity|assumption].
Qed.

(** ** The sweep of the Verifier *)

Lemma len_zero_iff {A} (l : list A) : (len l =? 0) = true <-> l = [].
Proof.
  unfold len. destruct l; cbn; split; try reflexivity; discriminate.
Qed.

Section VerificationFacts.

Variable dist : ndarray -> ndarray -> Q.
Variable ks : list Q -> list Q -> Q * Q.

Lemma tst_run z1 z2 :
  tst ks z1 z2 =
  ([TstCall z1 z2], Ok (Qle_bool (5 # 100) (snd (ks z1 z2)), snd (ks z1 z2))).
Proof. unfold tst. now rewrite bind_tell. Qed.

Lemma zv_z1_step dA dB t :
  t <> 0 ->
  zv_z1 dist (merged dA dB) dA t =
  (flat_map (zv_calls t) (py_range2 (t + 1) (shape0 dA)),
   Ok (step_z1 dist dA dB t)).
Proof.
  intros Ht. apply zv_z1_ok; [assumption|].
  rewrite shape0_merged. pose proof (shape0_nonneg dB). lia.
Qed.

Lemma zv_z2_step dA dB t :
  t <> 0 -> t < shape0 dA ->
  zv_z2 dist (merged dA dB) dA t =
  (flat_map (zv_calls t) (py_range2 (shape0 dA + 1) (shape0 dA + shape0 dB)),
   Ok (step_z2 dist dA dB t)).
Proof.
  intros Ht Hlt. apply zv_z2_ok; [assumption|apply shape0_merged|].
  pose proof (shape0_nonneg dA). pose proof (shape0_nonneg dB). lia.
Qed.

Lemma av_loop_break dA dB t times last :
  shape0 dA <= t ->
  av_loop dist ks (merged dA dB) dA (t :: times) last = ret (false, last).
Proof. intros H. cbn [av_loop]. now destruct (Z.leb_spec (shape0 dA) t); [|lia]. Qed.

Lemma av_loop_step dA dB t times last :
  t <> 0 -> t < shape0 dA ->
  av_loop dist ks (merged dA dB) dA (t :: times) last =
  if (len (step_z1 dist dA dB t) =? 0) || (len (step_z2 dist dA dB t) =? 0)
  then (builder_events dA dB t, Ok (false, last))
  else if Qle_bool (5 # 100) (step_pvalue dist ks dA dB t)
  then (step_events dist dA dB t, Ok (true, step_pvalue dist ks dA dB t))
  else
    let rest := av_loop dist ks (merged dA dB) dA times
                        (py_max last (step_pvalue dist ks dA dB t)) in
    (step_events dist dA dB t ++ trace rest, value rest).
Proof.
  intros Ht Hlt. cbn [av_loop].
  destruct (Z.leb_spec (shape0 dA) t); [lia|].
  rewrite (bind_ok _ _ _ _ (zv_z1_step dA dB t Ht)). cbv beta.
  rewrite (bind_ok _ _ _ _ (zv_z2_step dA dB t Ht Hlt)). cbv beta.
  destruct (_ || _).
  - cbn. now rewrite app_nil_r.
  - rewrite (bind_ok _ _ _ _ (tst_run _ _)). cbv beta iota.
    fold (step_pvalue dist ks dA dB t).
    unfold step_events, builder_events.
    destruct (Qle_bool _ _); cbn [trace value fst snd ret];
      now rewrite <- ?app_assoc, ?app_nil_r.
Qed.

Lemma passed_tests dA dB t :
  passed dist ks dA dB t ->
  (len (step_z1 dist dA dB t) =? 0) || (len (step_z2 dist dA dB t) =? 0) = false
  /\ Qle_bool (5 # 100) (step_pvalue dist ks dA dB t) = false.
Proof.
  intros [(_ & H1 & H2) Hs]. split.
  - apply orb_false_iff. split.
    + destruct (len _ =? 0) eqn:E; [|reflexivity]. now apply len_zero_iff in E.
    + destruct (len _ =? 0) eqn:E; [|reflexivity]. now apply len_zero_iff in E.
  - destruct (Qle_bool _ _) eqn:E; [|reflexivity].
    apply Qle_bool_iff in E. contradiction.
Qed.

(** Steps that are evaluated without a match are passed over, keeping
    the running maximum. *)
Lemma av_loop_prefix dA dB pre rest last :
  Forall (fun u => u <> 0 /\ passed dist ks dA dB u) pre ->
  av_loop dist ks (merged dA dB) dA (pre ++ rest) last =
  let k := av_loop dist ks (merged dA dB) dA rest
                   (running_max last (map (step_pvalue dist ks dA dB) pre)) in
  (flat_map (step_events dist dA dB) pre ++ trace k, value k).
Proof.
  intros H. revert last. induction H as [|u pre [Hu Hp] _ IH]; intros last.
  - cbn. apply pair_trace_value.
  - cbn [app map flat_map running_max fold_left].
    rewrite av_loop_step by (assumption || apply Hp).
    destruct (passed_tests _ _ _ Hp) as [-> ->]. cbv zeta.
    rewrite IH. cbn [trace value fst snd]. now rewrite app_assoc.
Qed.

End VerificationFacts.

(** ** The Verifier *)

Section VerifierClaims.

Variable dist : ndarray -> ndarray -> Q.
Variable ks : list Q -> list Q -> Q * Q.

Lemma evaluable_dec dA dB t :
  {evaluable dist dA dB t} + {~ evaluable dist dA dB t}.
Proof.
  unfold evaluable.
  destruct (Z_lt_dec t (shape0 dA)); [|right; tauto].
  destruct (step_z1 dist dA dB t); [right; tauto|].
  destruct (step_z2 dist dA dB t); [right; tauto|].
  left. repeat split; [assumption|discriminate|discriminate].
Qed.

Lemma not_evaluable dA dB t :
  ~ evaluable dist dA dB t <->
  shape0 dA <= t \/ step_z1 dist dA dB t = [] \/ step_z2 dist dA dB t = [].
Proof.
  unfold evaluable. split.
  - intros H. destruct (Z_lt_dec t (shape0 dA)); [|left; lia].
    destruct (step_z1 dist dA dB t); [tauto|].
    destruct (step_z2 dist dA dB t); [tauto|].
    exfalso. apply H. repeat split; [assumption|discriminate|discriminate].
  - intros [H|[H|H]] (H1 & H2 & H3); [lia|contradiction|contradiction].
Qed.

(** Every sweep either reaches a first step that signals a match, or
    passes a prefix of steps and then ends or meets a step that cannot be
    evaluated. *)
Lemma sweep_cases dA dB times :
  (exists pre t post,
      times = pre ++ t :: post /\ Forall (passed dist ks dA dB) pre /\
      evaluable dist dA dB t /\ signals dist ks dA dB t)
  \/
  (exists pre post,
      times = pre ++ post /\ Forall (passed dist ks dA dB) pre /\
      match post with
      | [] => True
      | t :: _ => ~ evaluable dist dA dB t
      end).
Proof.
  induction times as [|t times IH].
  - right. exists [], []. split; [reflexivity|]. split; constructor.
  - destruct (evaluable_dec dA dB t) as [He|He].
    + destruct (Qlt_le_dec (step_pvalue dist ks dA dB t) (5 # 100)) as [Hs|Hs].
      * assert (Hp : passed dist ks dA dB t).
        { split; [assumption|]. unfold signals. now apply Qlt_not_le. }
        destruct IH as [(pre & u & post & -> & Hpre & Hu)
                       |(pre & post & -> & Hpre & Hpost)].
        -- left. exists (t :: pre), u, post.
           split; [reflexivity|]. split; [now constructor|assumption].
        -- right. exists (t :: pre), post.
           split; [reflexivity|]. split; [now constructor|assumption].
      * left. exists [], t, times.
        split; [reflexivity|]. split; [constructor|]. now split.
    + right. exists [], (t :: times).
      split; [reflexivity|]. split; [constructor|assumption].
Qed.

Lemma author_verification_unfold dA dB time_start time_end delta_time :
  shape1 dA = shape1 dB -> delta_time <> 0 ->
  author_verification dist ks dA dB time_start time_end delta_time =
  av_loop dist ks (merged dA dB) dA
          (range_list time_start time_end delta_time) (-1)%Q.
Proof.
  intros Hd Hs. unfold author_verification.
  rewrite merge_documents_ok by assumption. rewrite bind_ret.
  rewrite py_range3_ok by assumption. now rewrite bind_ret.
Qed.

Lemma av_loop_match dA dB pre t post last :
  Forall (fun u => u <> 0 /\ passed dist ks dA dB u) pre ->
  t <> 0 -> evaluable dist dA dB t -> signals dist ks dA dB t ->
  av_loop dist ks (merged dA dB) dA (pre ++ t :: post) last =
  (flat_map (step_events dist dA dB) (pre ++ [t]),
   Ok (true, step_pvalue dist ks dA dB t)).
Proof.
  intros Hpre Ht (Hlt & H1 & H2) Hs.
  rewrite av_loop_prefix by assumption. cbv zeta.
  rewrite av_loop_step by assumption.
  destruct (len (step_z1 dist dA dB t) =? 0) eqn:E1;
    [now apply len_zero_iff in E1|].
  destruct (len (step_z2 dist dA dB t) =? 0) eqn:E2;
    [now apply len_zero_iff in E2|].
  apply Qle_bool_iff in Hs. rewrite Hs. cbn [orb trace value fst snd].
  rewrite flat_map_app. cbn [flat_map]. now rewrite app_nil_r.
Qed.

Lemma av_loop_stop dA dB pre t post last :
  Forall (fun u => u <> 0 /\ passed dist ks dA dB u) pre ->
  t <> 0 -> ~ evaluable dist dA dB t ->
  av_loop dist ks (merged dA dB) dA (pre ++ t :: post) last =
  (flat_map (step_events dist dA dB) pre ++ abort_events dA dB t,
   Ok (false, running_max last (map (step_pvalue dist ks dA dB) pre))).
Proof.
  intros Hpre Ht Hne.
  rewrite av_loop_prefix by assumption. cbv zeta.
  unfold abort_events. destruct (Z.leb_spec (shape0 dA) t) as [Hge|Hlt].
  - now rewrite av_loop_break.
  - rewrite av_loop_step by assumption.
    apply not_evaluable in Hne as [Hne|[Hne|Hne]]; [lia| |].
    + apply len_zero_iff in Hne. now rewrite Hne.
    + apply len_zero_iff in Hne. rewrite Hne. now rewrite orb_true_r.
Qed.

Lemma av_loop_exhausted dA dB pre last :
  Forall (fun u => u <> 0 /\ passed dist ks dA dB u) pre ->
  av_loop dist ks (merged dA dB) dA pre last =
  (flat_map (step_events dist dA dB) pre,
   Ok (false, running_max last (map (step_pvalue dist ks dA dB) pre))).
Proof.
  intros Hpre. rewrite <- (app_nil_r pre) at 1.
  rewrite av_loop_prefix by assumption. cbn. now rewrite app_nil_r.
Qed.

Lemma tests_of_builder_events dA dB t : tests_of (builder_events dA dB t) = [].
Proof.
  unfold builder_events. now rewrite tests_of_app, !tests_of_zv_calls.
Qed.

Lemma tests_of_abort_events dA dB t : tests_of (abort_events dA dB t) = [].
Proof.
  unfold abort_events. destruct (_ <=? _); [reflexivity|].
  apply tests_of_builder_events.
Qed.

Lemma tests_of_steps dA dB pre :
  tests_of (flat_map (step_events dist dA dB) pre) =
  map (fun u => (step_z1 dist dA dB u, step_z2 dist dA dB u)) pre.
Proof.
  induction pre as [|u pre IH]; [reflexivity|].
  cbn [flat_map map]. rewrite tests_of_app, IH. unfold step_events.
  now rewrite tests_of_app, tests_of_builder_events.
Qed.

End VerifierClaims.

Section VerifierTheorems.

Variable dist : ndarray -> ndarray -> Q.
Variable ks : list Q -> list Q -> Q * Q.

Lemma swept_nonzero dA dB time_start time_end delta_time pre rest :
  0 < time_start -> 0 < delta_time ->
  range_list time_start time_end delta_time = pre ++ rest ->
  Forall (passed dist ks dA dB) pre ->
  Forall (fun u => u <> 0 /\ passed dist ks dA dB u) pre.
Proof.
  intros H0 Hs Heq Hpre. rewrite Forall_forall in *. intros u Hu.
  split; [|now apply Hpre].
  assert (0 < u); [|lia].
  apply (range_list_positive time_start time_end delta_time); try assumption.
  rewrite Heq. apply in_or_app. now left.
Qed.

(** C1. For documents of one dimensionality and a sweep of positive
    integers, author_verification returns (true, p) with p the p-value of
    the first, smallest swept time at which the two-sample test signals a
    match, and the execution ends with the test of that step; when no
    evaluated step signals a match it returns (false, q), q being the
    running maximum kept from -1, which is the maximum p-value of the
    evaluated steps as soon as one step was evaluated. *)
Theorem author_verification_first_match_wins
        (dA dB : csr_matrix) (time_start time_end delta_time : Z) :
  shape1 dA = shape1 dB -> 0 < time_start -> 0 < delta_time ->
  (forall z1 z2, 0 <= snd (ks z1 z2))%Q ->
  let times := range_list time_start time_end delta_time in
  let run := author_verification dist ks dA dB time_start time_end delta_time in
  (exists pre t post,
      times = pre ++ t :: post /\
      Forall (fun u => u < t /\ passed dist ks dA dB u) pre /\
      evaluable dist dA dB t /\ signals dist ks dA dB t /\
      run = (flat_map (step_events dist dA dB) (pre ++ [t]),
             Ok (true, step_pvalue dist ks dA dB t)))
  \/
  (exists pre post q,
      times = pre ++ post /\
      Forall (passed dist ks dA dB) pre /\
      match post with
      | [] => True
      | t :: _ => ~ evaluable dist dA dB t
      end /\
      value run = Ok (false, q) /\
      q = running_max (-1)%Q (map (step_pvalue dist ks dA dB) pre) /\
      (pre <> [] -> In q (map (step_pvalue dist ks dA dB) pre)) /\
      Forall (fun p => (p <= q)%Q) (map (step_pvalue dist ks dA dB) pre) /\
      tests_of (trace run) =
      map (fun u => (step_z1 dist dA dB u, step_z2 dist dA dB u)) pre).
Proof.
  intros Hd H0 Hs Hks times run.
  assert (Hrun : run = av_loop dist ks (merged dA dB) dA times (-1)%Q)
    by (apply author_verification_unfold; [assumption|lia]).
  destruct (sweep_cases dist ks dA dB times)
    as [(pre & t & post & Heq & Hpre & He & Hsig)
       |(pre & post & Heq & Hpre & Hpost)].
  - left. exists pre, t, post. split; [assumption|].
    split; [|split; [assumption|split; [assumption|]]].
    + pose proof (range_from_sorted _ _ _ _ _ _ Hs Heq) as Hlt.
      rewrite Forall_forall in *. intros u Hu. split; auto.
    + rewrite Hrun, Heq. apply av_loop_match; try assumption.
      * now apply (swept_nonzero dA dB time_start time_end delta_time
                                 pre (t :: post)).
      * assert (0 < t); [|lia].
        apply (range_list_positive time_start time_end delta_time);
          try assumption.
        fold times. rewrite Heq. apply in_or_app. right. now left.
  - right.
    pose proof (swept_nonzero dA dB _ _ _ _ _ H0 Hs Heq Hpre) as Hpre'.
    set (ps := map (step_pvalue dist ks dA dB) pre).
    assert (Hval : run = (flat_map (step_events dist dA dB) pre ++
                          match post with
                          | [] => []
                          | t :: _ => abort_events dA dB t
                          end,
                          Ok (false, running_max (-1)%Q ps))).
    { rewrite Hrun, Heq. destruct post as [|t post].
      - rewrite !app_nil_r. now apply av_loop_exhausted.
      - apply av_loop_stop; try assumption.
        assert (0 < t); [|lia].
        apply (range_list_positive time_start time_end delta_time);
          try assumption.
        fold times. rewrite Heq. apply in_or_app. right. now left. }
    exists pre, post, (running_max (-1)%Q ps).
    split; [assumption|]. split; [assumption|]. split; [assumption|].
    split; [now rewrite Hval|]. split; [reflexivity|].
    assert (Hlow : Forall (fun p => (-1 < p)%Q) ps).
    { subst ps. rewrite Forall_forall. intros p (u & <- & _)%in_map_iff.
      apply (Qlt_le_trans _ 0); [exact eq_refl|apply Hks]. }
    split; [|split].
    + intros Hne. apply running_max_is_max; [|assumption].
      subst ps. now destruct pre.
    + apply running_max_upper.
    + rewrite Hval. cbn [trace fst]. rewrite tests_of_app, tests_of_steps.
      destruct post; [apply app_nil_r|].
      now rewrite tests_of_abort_events, app_nil_r.
Qed.

(** C2. The sweep stops at the first swept time that is not below the
    length of document A or at which a ZV sample is empty: no two-sample
    test is run at that step or later, and the result is (false, best
    p-value so far), which is not negative once a step was evaluated
    (p-values being non-negative).  When time_start is at least the length
    of document A nothing at all is evaluated and the result is
    (false, -1). *)
Theorem author_verification_stops_without_testing
        (dA dB : csr_matrix) (time_start time_end delta_time : Z) :
  shape1 dA = shape1 dB -> 0 < time_start -> 0 < delta_time ->
  let times := range_list time_start time_end delta_time in
  let run := author_verification dist ks dA dB time_start time_end delta_time in
  (forall pre t post,
      times = pre ++ t :: post ->
      Forall (passed dist ks dA dB) pre ->
      shape0 dA <= t \/ step_z1 dist dA dB t = [] \/ step_z2 dist dA dB t = [] ->
      value run =
      Ok (false, running_max (-1)%Q (map (step_pvalue dist ks dA dB) pre)) /\
      tests_of (trace run) =
      map (fun u => (step_z1 dist dA dB u, step_z2 dist dA dB u)) pre /\
      trace run = flat_map (step_events dist dA dB) pre ++ abort_events dA dB t /\
      ((forall z1 z2, 0 <= snd (ks z1 z2))%Q -> pre <> [] ->
       (0 <= running_max (-1) (map (step_pvalue dist ks dA dB) pre))%Q))
  /\
  (shape0 dA <= time_start -> run = ([], Ok (false, (-1)%Q))).
Proof.
  intros Hd H0 Hs times run.
  assert (Hrun : run = av_loop dist ks (merged dA dB) dA times (-1)%Q)
    by (apply author_verification_unfold; [assumption|lia]).
  split.
  - intros pre t post Heq Hpre Hstop.
    assert (Hval : run = (flat_map (step_events dist dA dB) pre ++
                          abort_events dA dB t,
                          Ok (false, running_max (-1)%Q
                                       (map (step_pvalue dist ks dA dB) pre)))).
    { rewrite Hrun, Heq. apply av_loop_stop.
      - now apply (swept_nonzero dA dB time_start time_end delta_time
                                 pre (t :: post)).
      - assert (0 < t); [|lia].
        apply (range_list_positive time_start time_end delta_time);
          try assumption.
        fold times. rewrite Heq. apply in_or_app. right. now left.
      - now apply not_evaluable. }
    rewrite Hval. cbn [value trace fst snd].
    split; [reflexivity|]. split; [|split; [reflexivity|]].
    + now rewrite tests_of_app, tests_of_steps, tests_of_abort_events, app_nil_r.
    + intros Hks Hne. destruct pre as [|u pre']; [contradiction|].
      destruct (running_max_upper (-1)%Q
                  (map (step_pvalue dist ks dA dB) (u :: pre'))) as [_ Hub].
      inversion Hub as [|? ? Hu _]; subst.
      eapply Qle_trans; [apply Hks|exact Hu].
  - intros Hge. rewrite Hrun. subst times. unfold range_list.
    destruct (Z.to_nat _) as [|n]; [reflexivity|].
    cbn [range_from]. now apply av_loop_break.
Qed.

End VerifierTheorems.

(** ** The statistic, the samples and the test: the stated properties *)

Lemma nth_range_from start n k d :
  (k < n)%nat -> nth k (range_from start 1 n) d = start + Z.of_nat k.
Proof.
  revert start k; induction n as [|n IH]; intros start k Hk; [lia|].
  destruct k as [|k]; cbn [range_from nth]; [lia|].
  rewrite IH by lia. lia.
Qed.

Section StatisticTheorems.

Variable dist : ndarray -> ndarray -> Q.
Variable ks : list Q -> list Q -> Q * Q.

(** An index that designates no chunk makes the statistic fail. *)
Lemma zv_loop_index_error chunks i js sum :
  (js <> [] /\ ~ - shape0 chunks <= i < shape0 chunks) \/
  (exists j, In j js /\ ~ - shape0 chunks <= i - j < shape0 chunks) ->
  value (zv_loop dist chunks i js sum) = Raise IndexError.
Proof.
  revert sum; induction js as [|j js IH]; intros sum H.
  - destruct H as [[H _]|(j & [] & _)]. contradiction.
  - cbn [zv_loop].
    destruct (Z_le_dec (- shape0 chunks) i) as [Hi1|Hi1];
      [|rewrite getrow_index_error by lia; reflexivity].
    destruct (Z_lt_dec i (shape0 chunks)) as [Hi2|Hi2];
      [|rewrite getrow_index_error by lia; reflexivity].
    rewrite getrow_ok, bind_ret by lia.
    destruct (Z_le_dec (- shape0 chunks) (i - j)) as [Hj1|Hj1];
      [|rewrite getrow_index_error by lia; reflexivity].
    destruct (Z_lt_dec (i - j) (shape0 chunks)) as [Hj2|Hj2];
      [|rewrite getrow_index_error by lia; reflexivity].
    rewrite getrow_ok, bind_ret by lia.
    rewrite document_distance_rows, bind_tell, bind_ret. cbn [value snd].
    apply IH. destruct H as [[_ H]|(j' & [<-|Hj'] & H)]; [lia|lia|].
    right. now exists j'.
Qed.

(** C6. For every chunk sequence, window size time >= 1 and index i whose
    window designates chunks, zv_function returns
    (1/time) * sum_{j=0..time-1} ChunkDistance(chunk[i], chunk[i-j]); the
    j = 0 self-distance is computed like the other terms (it is the first
    distance call and the first term of the sum).  When an index of the
    window designates no chunk the evaluation fails with IndexError. *)
Theorem zv_function_windowed_mean (chunks : csr_matrix) (time i : Z) :
  1 <= time ->
  let n := shape0 chunks in
  let term j := ChunkDistance dist (chunk_at chunks i) (chunk_at chunks (i - j)) in
  (- n <= i < n /\ - n <= i - (time - 1) ->
   value (zv_function dist chunks time i) =
   Ok ((1 / inject_Z time) * big_sum (Z.to_nat time) term)%Q /\
   trace (zv_function dist chunks time i) =
   DistanceCall i (i - 0) ::
   map (fun j => DistanceCall i (i - j)) (py_range2 1 time) /\
   big_sum (Z.to_nat time) term =
   fold_left (fun acc j => acc + term j)%Q (py_range2 1 time) (0 + term 0%Z)%Q)
  /\
  (~ (- n <= i < n /\ - n <= i - (time - 1)) ->
   value (zv_function dist chunks time i) = Raise IndexError).
Proof.
  intros Ht n term. split.
  - intros [Hi Hlow]. rewrite (zv_function_ok dist chunks time i Ht Hi Hlow).
    cbn [value trace fst snd].
    assert (Hr : py_range1 time = 0 :: py_range2 1 time).
    { unfold py_range1, py_range2.
      replace (Z.to_nat (time - 0)) with (S (Z.to_nat (time - 1))) by lia.
      reflexivity. }
    split; [reflexivity|]. split.
    + unfold zv_calls. now rewrite Hr.
    + rewrite <- (fold_left_big_sum term).
      replace (range_from 0 1 (Z.to_nat time)) with (py_range1 time)
        by (unfold py_range1, py_range2; now rewrite Z.sub_0_r).
      now rewrite Hr.
  - intros Hbad. unfold zv_function.
    assert (Hv : value (zv_loop dist chunks i (py_range1 time) 0%Q)
                 = Raise IndexError).
    { apply zv_loop_index_error.
      assert (Hne : py_range1 time <> []).
      { intros E. assert (Hin : In 0 (py_range1 time)) by (apply in_py_range1; lia).
        now rewrite E in Hin. }
      destruct (Z_le_dec (- n) i) as [H1|H1]; [|left; split; [assumption|fold n; lia]].
      destruct (Z_lt_dec i n) as [H2|H2]; [|left; split; [assumption|fold n; lia]].
      right. exists (time - 1). split; [apply in_py_range1; lia|].
      fold n. lia. }
    destruct (zv_loop dist chunks i (py_range1 time) 0%Q) as [tr r].
    cbn [value snd] in Hv. now subst r.
Qed.

(** C9. When an inner index i - j of the window is negative, of magnitude
    at most the sequence length, the lookup chunks[i - j] raises nothing
    and yields the chunk at position len(chunks) + (i - j); the distance
    for that j is computed against it and enters ZV(i, time). *)
Theorem zv_function_negative_index_wraps (chunks : csr_matrix) (time i j : Z) :
  1 <= time ->
  - shape0 chunks <= i < shape0 chunks ->
  - shape0 chunks <= i - (time - 1) ->
  0 <= j < time -> i - j < 0 ->
  getrow chunks (i - j) =
  ret {| shape1 := shape1 chunks;
         rows := [nth (Z.to_nat (shape0 chunks + (i - j))) (rows chunks) []] |} /\
  chunk_at chunks (i - j) =
  nth (Z.to_nat (shape0 chunks + (i - j))) (rows chunks) [] /\
  In (DistanceCall i (i - j)) (trace (zv_function dist chunks time i)) /\
  value (zv_function dist chunks time i) =
  Ok ((1 / inject_Z time) *
      big_sum (Z.to_nat time)
        (fun j' => ChunkDistance dist (chunk_at chunks i)
                                 (chunk_at chunks (i - j'))))%Q.
Proof.
  intros Ht Hi Hlow Hj Hneg.
  assert (Hc : chunk_at chunks (i - j) =
               nth (Z.to_nat (shape0 chunks + (i - j))) (rows chunks) []).
  { unfold chunk_at. destruct (Z.ltb_spec (i - j) 0); [|lia].
    now rewrite Z.add_comm. }
  split; [|split; [assumption|]].
  - rewrite getrow_ok by lia. now rewrite Hc.
  - rewrite (zv_function_ok dist chunks time i Ht Hi Hlow).
    cbn [trace value fst snd]. split; [|reflexivity].
    unfold zv_calls. apply in_map_iff. exists j.
    split; [reflexivity|apply in_py_range1; lia].
Qed.

(** C5. For the merged sequence of a document A of m1 chunks and a
    document B of m2 chunks and a window size time (non-zero, so that ZV is
    defined), zv_z1 returns [ZV(i, time) for i in [time+1, m1)], of length
    max(0, m1 - time - 1), and zv_z2 returns
    [ZV(i, time) for i in [m1+1, m1+m2)], of length max(0, m2 - 1) (its
    window must stay within one turn of the sequence:
    time <= 2*m1 + m2 + 2). *)
Theorem sample_builders_index_ranges (dA dB : csr_matrix) (time : Z) :
  time <> 0 ->
  let all_chunks := merged dA dB in
  let m1 := shape0 dA in
  let m2 := shape0 dB in
  (exists z1,
      value (zv_z1 dist all_chunks dA time) = Ok z1 /\
      len z1 = Z.max 0 (m1 - time - 1) /\
      forall k, 0 <= k < len z1 ->
                nth (Z.to_nat k) z1 0%Q = ZV dist all_chunks (time + 1 + k) time)
  /\
  (time <= 2 * m1 + m2 + 2 ->
   exists z2,
      value (zv_z2 dist all_chunks dA time) = Ok z2 /\
      len z2 = Z.max 0 (m2 - 1) /\
      forall k, 0 <= k < len z2 ->
                nth (Z.to_nat k) z2 0%Q = ZV dist all_chunks (m1 + 1 + k) time).
Proof.
  intros Ht all_chunks m1 m2. split.
  - exists (Sample1 dist all_chunks m1 time). split; [|split].
    + subst all_chunks m1. now rewrite zv_z1_step.
    + apply Sample1_length.
    + intros k Hk. rewrite Sample1_length in Hk. unfold Sample1.
      rewrite (nth_indep _ 0%Q (ZV dist all_chunks 0 time))
        by (fold (Sample1 dist all_chunks m1 time);
            pose proof (Sample1_length dist all_chunks m1 time) as Hl;
            unfold len in Hl; lia).
      rewrite (map_nth (fun i => ZV dist all_chunks i time)).
      unfold py_range2. rewrite nth_range_from by lia. f_equal. lia.
  - intros Hb. exists (Sample2 dist all_chunks m1 m2 time). split; [|split].
    + subst all_chunks m1 m2.
      rewrite (zv_z2_ok dist (merged dA dB) dA (shape0 dB) time Ht
                        (shape0_merged dA dB) Hb).
      reflexivity.
    + apply Sample2_length.
    + intros k Hk. rewrite Sample2_length in Hk. unfold Sample2.
      rewrite (nth_indep _ 0%Q (ZV dist all_chunks 0 time))
        by (fold (Sample2 dist all_chunks m1 m2 time);
            pose proof (Sample2_length dist all_chunks m1 m2 time) as Hl;
            unfold len in Hl; lia).
      rewrite (map_nth (fun i => ZV dist all_chunks i time)).
      unfold py_range2. rewrite nth_range_from by lia. f_equal. lia.
Qed.

(** C7. For every pair of samples, tst returns (d, p) where p is the
    p-value given by ks_2samp and d is true exactly when p >= 0.05. *)
Theorem tst_threshold (z1 z2 : list Q) :
  exists d,
    value (tst ks z1 z2) = Ok (d, snd (ks z1 z2)) /\
    (d = true <-> (5 # 100 <= snd (ks z1 z2))%Q).
Proof.
  rewrite tst_run. cbn [value snd].
  exists (Qle_bool (5 # 100) (snd (ks z1 z2))).
  split; [reflexivity|apply Qle_bool_iff].
Qed.

End StatisticTheorems.

(** ** Index bounds along the verification and determination paths *)

Section BoundsTheorems.

Variable dist : ndarray -> ndarray -> Q.
Variable ks : list Q -> list Q -> Q * Q.

Lemma window_clear_no_wraparound m1 ev : window_clear m1 ev -> no_wraparound ev.
Proof. destruct ev as [i k|]; cbn; [lia|trivial]. Qed.

Lemma in_trace_av_loop all_chunks document times last ev :
  In ev (trace (av_loop dist ks all_chunks document times last)) ->
  window_clear (shape0 document) ev.
Proof.
  revert last; induction times as [|t times IH]; intros last; cbn [av_loop];
    [intros []|].
  destruct (Z.leb_spec (shape0 document) t) as [Hge|Hlt]; [intros []|].
  intros H. apply in_trace_bind in H as [H|(z1 & _ & H)].
  { apply in_trace_zv_z1 in H as (i & j & Hi & Hj & ->). cbn. lia. }
  apply in_trace_bind in H as [H|(z2 & _ & H)].
  { apply in_trace_zv_z2 in H as (i & j & Hi & Hj & ->). cbn. lia. }
  destruct (_ || _); [destruct H|].
  apply in_trace_bind in H as [H|([h p] & _ & H)].
  { rewrite tst_run in H. destruct H as [<-|[]]. exact I. }
  destruct h; [destruct H|]. eapply IH, H.
Qed.

Lemma in_trace_author_verification dA dB time_start time_end delta_time ev :
  In ev (trace (author_verification dist ks dA dB time_start time_end delta_time)) ->
  window_clear (shape0 dA) ev.
Proof.
  unfold author_verification. intros H.
  apply in_trace_bind in H as [H|(all_chunks & _ & H)].
  { unfold merge_documents in H. now destruct (_ =? _). }
  apply in_trace_bind in H as [H|(times & _ & H)].
  { unfold py_range3 in H. now destruct (_ =? _). }
  eapply in_trace_av_loop, H.
Qed.

Lemma trace_list_index {A} (l : list A) i : trace (list_index l i) = [].
Proof.
  unfold list_index. destruct (_ || _); [reflexivity|].
  now destruct (nth_error _ _).
Qed.

Lemma trace_dict_get d k : trace (dict_get d k) = [].
Proof.
  induction d as [|[k' v] d IH]; [reflexivity|].
  cbn [dict_get]. now destruct (k =? k').
Qed.

Lemma in_trace_ad_inner document all_documents time time_end delta_time
      cands pm ev :
  In ev (trace (ad_inner dist ks document all_documents time time_end
                         delta_time cands pm)) ->
  no_wraparound ev.
Proof.
  revert pm; induction cands as [|i cands IH]; intros pm; cbn [ad_inner];
    [intros []|].
  intros H. apply in_trace_bind in H as [H|(c & _ & H)];
    [now rewrite trace_list_index in H|].
  apply in_trace_bind in H as [H|([h mv] & _ & H)].
  { eapply window_clear_no_wraparound, in_trace_author_verification, H. }
  destruct h; [|eapply IH, H].
  apply in_trace_bind in H as [H|(old & _ & H)];
    [now rewrite trace_dict_get in H|].
  destruct (Qle_bool _ _); [destruct H|eapply IH, H].
Qed.

Lemma in_trace_ad_outer document all_documents time_end delta_time times pm ev :
  In ev (trace (ad_outer dist ks document all_documents time_end delta_time
                         times pm)) ->
  no_wraparound ev.
Proof.
  revert pm; induction times as [|t times IH]; intros pm; cbn [ad_outer];
    [intros []|].
  intros H. apply in_trace_bind in H as [H|([pm' stop] & _ & H)].
  { eapply in_trace_ad_inner, H. }
  destruct stop; [destruct H|eapply IH, H].
Qed.

(** C10. Whatever the documents and the sweep, every distance call of
    author_verification has its second index i - j at least 2 when the
    target chunk i lies in document A (the Sample_1 builder) and at least 3
    when it lies in document B (the Sample_2 builder); so no call of the
    verification or determination path uses a negative index. *)
Theorem verification_window_never_wraps
        (dA dB document : csr_matrix) (all_documents : list csr_matrix)
        (all_authors : list string) (time_start time_end delta_time : Z) :
  Forall (window_clear (shape0 dA))
         (trace (author_verification dist ks dA dB
                                     time_start time_end delta_time)) /\
  Forall no_wraparound
         (trace (author_verification dist ks dA dB
                                     time_start time_end delta_time)) /\
  Forall no_wraparound
         (trace (author_determination dist ks document all_documents
                                      all_authors
                                      time_start time_end delta_time)).
Proof.
  split; [|split]; apply Forall_forall; intros ev H.
  - eapply in_trace_author_verification, H.
  - eapply window_clear_no_wraparound, in_trace_author_verification, H.
  - unfold author_determination in H.
    apply in_trace_bind in H as [H|(times & _ & H)].
    { unfold py_range3 in H. now destruct (_ =? _). }
    apply in_trace_bind in H as [H|(pm & _ & H)].
    { eapply in_trace_ad_outer, H. }
    apply in_trace_bind in H as [H|(best & _ & H)].
    { now destruct pm. }
    apply in_trace_bind in H as [H|(v & _ & H)];
      [now rewrite trace_dict_get in H|].
    destruct (Qeq_bool v 0); [destruct H|].
    apply in_trace_bind in H as [H|(a & _ & [])].
    now rewrite trace_list_index in H.
Qed.

End BoundsTheorems.

(** ** Window sizes that are not positive *)

Lemma py_range2_cons start stop :
  start < stop -> py_range2 start stop = start :: py_range2 (start + 1) stop.
Proof.
  intros H. unfold py_range2.
  replace (Z.to_nat (stop - start)) with (S (Z.to_nat (stop - (start + 1))))
    by lia.
  reflexivity.
Qed.

Lemma range_list_cons start stop step :
  0 < step -> start < stop ->
  exists rest, range_list start stop step = start :: rest.
Proof.
  intros Hs Hlt. unfold range_list, range_len.
  destruct (Z.ltb_spec 0 step); [|lia].
  destruct (Z.ltb_spec start stop); [|lia].
  assert (0 <= (stop - start - 1) / step) by (apply Z.div_pos; lia).
  destruct (Z.to_nat _) as [|n] eqn:E; [lia|].
  now exists (range_from (start + step) step n).
Qed.

Section WindowTheorems.

Variable dist : ndarray -> ndarray -> Q.
Variable ks : list Q -> list Q -> Q * Q.

Lemma zv_builder_zero_raises chunks start stop :
  start < stop ->
  mapM (fun i => zv_function dist chunks 0 i) (py_range2 start stop) =
  raise ZeroDivisionError.
Proof. intros H. now rewrite py_range2_cons. Qed.

Lemma zv_builder_empty chunks time start stop :
  stop <= start ->
  mapM (fun i => zv_function dist chunks time i) (py_range2 start stop) = ret [].
Proof. intros H. now rewrite py_range2_nil. Qed.

Lemma author_verification_window_too_large dA dB time_start time_end
      delta_time :
  shape1 dA = shape1 dB -> delta_time <> 0 -> shape0 dA <= time_start ->
  author_verification dist ks dA dB time_start time_end delta_time
  = ret (false, (-1)%Q).
Proof.
  intros Hd Hs Hge. rewrite author_verification_unfold by assumption.
  unfold range_list. destruct (Z.to_nat _) as [|n]; [reflexivity|].
  cbn [range_from]. now apply av_loop_break.
Qed.

Lemma list_index_head {A} (a : A) l : list_index (a :: l) 0 = ret a.
Proof.
  unfold list_index, len. cbn [length].
  destruct (Z.ltb_spec 0 (- Z.of_nat (S (length l)))); [lia|].
  destruct (Z.leb_spec (Z.of_nat (S (length l))) 0); [lia|].
  reflexivity.
Qed.

Lemma py_range1_cons n : 0 < n -> py_range1 n = 0 :: py_range2 1 n.
Proof. intros H. unfold py_range1. now rewrite py_range2_cons. Qed.

(** The Determiner hands the first swept time to the Verifier of its
    first candidate: a failure there is the Determiner's. *)
Lemma author_determination_first_visit_raises document candidate others
      all_authors time_start time_end delta_time e :
  0 < delta_time -> time_start < time_end ->
  author_verification dist ks candidate document
                      time_start time_end delta_time = ([], Raise e) ->
  author_determination dist ks document (candidate :: others) all_authors
                       time_start time_end delta_time = ([], Raise e).
Proof.
  intros Hs Hlt Hav. unfold author_determination.
  rewrite py_range3_ok, bind_ret by lia.
  destruct (range_list_cons time_start time_end delta_time Hs Hlt)
    as (rest & ->).
  cbn [ad_outer].
  rewrite py_range1_cons by (unfold len; cbn [length]; lia).
  cbn [ad_inner]. rewrite list_index_head, bind_ret.
  now rewrite (bind_raise _ _ _ _ Hav).
Qed.

(** A candidate that never matches leaves the Determiner with the
    all-zero map and no author. *)
Lemma author_determination_no_match document candidate author
      time_start time_end delta_time :
  delta_time <> 0 ->
  (forall t, In t (range_list time_start time_end delta_time) ->
             author_verification dist ks candidate document
                                 t time_end delta_time
             = ret (false, (-1)%Q)) ->
  author_determination dist ks document [candidate] [author]
                       time_start time_end delta_time
  = ([], Ok (None, [(0, 0%Q)])).
Proof.
  intros Hs Hall. unfold author_determination.
  rewrite py_range3_ok, bind_ret by assumption.
  change (map (fun i => (i, 0%Q)) (py_range1 (len [author])))
    with [(0, 0%Q)].
  assert (H : forall times,
             (forall t, In t times ->
                        author_verification dist ks candidate document
                                            t time_end delta_time
                        = ret (false, (-1)%Q)) ->
             ad_outer dist ks document [candidate] time_end delta_time
                      times [(0, 0%Q)] = ret [(0, 0%Q)]).
  { induction times as [|t times IH]; intros Ht; [reflexivity|].
    cbn [ad_outer]. change (py_range1 (len [candidate])) with [0].
    cbn [ad_inner]. rewrite list_index_head, bind_ret.
    rewrite (Ht t (or_introl eq_refl)), !bind_ret.
    apply IH. intros; apply Ht; now right. }
  rewrite (H _ Hall), bind_ret. reflexivity.
Qed.

(** C8, as the code has it.  Neither the Verifier nor the Determiner
    validates the sweep specification.  The statistic at time = 0 raises
    ZeroDivisionError, before any distance is evaluated; a Verifier sweep
    that starts at 0 fails with that error exactly when one of the two
    index ranges is non-empty at time 0, and otherwise returns
    (false, -1); a Determiner sweep that starts at 0 fails with the same
    error when its first candidate has such a non-empty range against the
    unknown document, and with a single candidate without one it runs to
    the end and returns no author with the all-zero map.  At a negative
    window size the statistic evaluates no distance and returns
    (1/time) * 0. *)
Theorem zero_window_fails_by_division_only
        (dA dB : csr_matrix) (time_end delta_time : Z) :
  shape1 dA = shape1 dB -> 0 < time_end -> 0 < delta_time ->
  let verify := author_verification dist ks dA dB 0 time_end delta_time in
  (forall chunks i,
      zv_function dist chunks 0 i = ([], Raise ZeroDivisionError)) /\
  (forall chunks time i,
      time < 0 ->
      zv_function dist chunks time i = ([], Ok ((1 / inject_Z time) * 0)%Q)) /\
  (2 <= shape0 dA \/ (shape0 dA = 1 /\ 2 <= shape0 dB) ->
   verify = ([], Raise ZeroDivisionError)) /\
  (shape0 dA = 0 \/ (shape0 dA = 1 /\ shape0 dB <= 1) ->
   verify = ([], Ok (false, (-1)%Q))) /\
  (2 <= shape0 dA \/ (shape0 dA = 1 /\ 2 <= shape0 dB) ->
   forall others all_authors,
     author_determination dist ks dB (dA :: others) all_authors
                          0 time_end delta_time
     = ([], Raise ZeroDivisionError)) /\
  (shape0 dA = 0 \/ (shape0 dA = 1 /\ shape0 dB <= 1) ->
   forall author,
     author_determination dist ks dB [dA] [author] 0 time_end delta_time
     = ([], Ok (None, [(0, 0%Q)]))).
Proof.
  intros Hd He Hs verify.
  split; [intros; apply zv_function_zero|].
  split; [intros; now apply zv_function_negative|].
  assert (Hrun : verify = av_loop dist ks (merged dA dB) dA
                                  (range_list 0 time_end delta_time) (-1)%Q)
    by (apply author_verification_unfold; [assumption|lia]).
  destruct (range_list_cons 0 time_end delta_time Hs He) as (rest & Hr).
  assert (Hfail : 2 <= shape0 dA \/ (shape0 dA = 1 /\ 2 <= shape0 dB) ->
                  verify = ([], Raise ZeroDivisionError)).
  { rewrite Hr in Hrun. rewrite Hrun. cbn [av_loop]. unfold zv_z1, zv_z2.
    rewrite shape0_merged. intros [H|[H1 H2]].
    + destruct (Z.leb_spec (shape0 dA) 0); [lia|].
      now rewrite zv_builder_zero_raises by lia.
    + destruct (Z.leb_spec (shape0 dA) 0); [lia|].
      rewrite zv_builder_empty, bind_ret by lia.
      now rewrite zv_builder_zero_raises by lia. }
  assert (Hpass : shape0 dA = 0 \/ (shape0 dA = 1 /\ shape0 dB <= 1) ->
                  verify = ([], Ok (false, (-1)%Q))).
  { rewrite Hr in Hrun. rewrite Hrun. cbn [av_loop]. unfold zv_z1, zv_z2.
    rewrite shape0_merged. intros [H|[H1 H2]].
    + destruct (Z.leb_spec (shape0 dA) 0); [reflexivity|lia].
    + destruct (Z.leb_spec (shape0 dA) 0); [lia|].
      rewrite zv_builder_empty, bind_ret by lia.
      now rewrite zv_builder_empty, bind_ret by lia. }
  split; [exact Hfail|]. split; [exact Hpass|]. split.
  - intros H others all_authors.
    apply author_determination_first_visit_raises; try assumption.
    now apply Hfail.
  - intros H author.
    apply author_determination_no_match; [lia|].
    intros t Ht. destruct (Z.eq_dec t 0) as [->|Hnz]; [now apply Hpass|].
    apply range_from_lower in Ht; [|assumption].
    apply author_verification_window_too_large; [assumption|lia|lia].
Qed.

End WindowTheorems.

(** C8, as stated, fails: a sweep over the window sizes -1, 0, ... is
    rejected neither by the Verifier nor by the Determiner (the step at -1
    is evaluated and signals a match), and a sweep starting at 0 over
    single-chunk documents returns (false, -1) from the Verifier and no
    author from the Determiner. *)
Lemma nonpositive_window_not_rejected :
  value (author_verification canberra ks_2samp_surrogate docA docB (-1) 4 1)
  = Ok (true, 1%Q) /\
  value (author_verification canberra ks_2samp_surrogate doc1A doc1B 0 4 1)
  = Ok (false, (-1)%Q) /\
  value (zv_function canberra docA (-1) 0) = Ok ((1 / inject_Z (-1)) * 0)%Q /\
  value (author_determination canberra ks_2samp_surrogate docA [docB; docC]
                              ["x"%string; "y"%string] (-1) 4 1)
  = Ok (Some "x"%string, [(0, 1%Q); (1, 0%Q)]) /\
  value (author_determination canberra ks_2samp_surrogate doc1A [doc1B]
                              ["x"%string] 0 4 1)
  = Ok (None, [(0, 0%Q)]).
Proof. repeat split; vm_compute; reflexivity. Qed.

(** ** The Determiner's loops *)

Lemma bind_assoc {A B C} (m : M A) (f : A -> M B) (g : B -> M C) :
  bind (bind m f) g = bind m (fun a => bind (f a) g).
Proof.
  destruct m as [tr [a|e]]; cbn; [|reflexivity].
  destruct (f a) as [tr' [b|e]]; cbn; [|reflexivity].
  destruct (g b) as [tr'' r]. now rewrite app_assoc.
Qed.

Lemma bind_ext {A B} (m : M A) (f g : A -> M B) :
  (forall a, value m = Ok a -> f a = g a) -> bind m f = bind m g.
Proof.
  destruct m as [tr [a|e]]; cbn; [|reflexivity].
  intros H. now rewrite (H a eq_refl).
Qed.

Lemma dict_get_in d k v : value (dict_get d k) = Ok v -> In (k, v) d.
Proof.
  induction d as [|[k' v'] d IH]; cbn [dict_get]; [discriminate|].
  destruct (Z.eqb_spec k k') as [->|Hne].
  - cbn. intros [= ->]. now left.
  - intros H. right. now apply IH.
Qed.

Lemma dict_set_Forall (P : Z * Q -> Prop) d k v :
  Forall P d -> P (k, v) -> Forall P (dict_set d k v).
Proof.
  intros Hd Hv. induction Hd as [|[k' v'] d Hkv Hd IH]; cbn [dict_set].
  - now constructor.
  - destruct (k =? k'); constructor; assumption.
Qed.

Lemma dict_set_keys d k v :
  In k (map fst d) -> map fst (dict_set d k v) = map fst d.
Proof.
  induction d as [|[k' v'] d IH]; cbn [dict_set map fst]; [intros []|].
  destruct (Z.eqb_spec k k') as [->|Hne]; [reflexivity|].
  intros [H|H]; [congruence|]. cbn. now rewrite IH.
Qed.

Lemma dict_get_ok d k :
  In k (map fst d) -> exists v, dict_get d k = ret v.
Proof.
  induction d as [|[k' v'] d IH]; cbn [dict_get map fst]; [intros []|].
  destruct (Z.eqb_spec k k') as [->|Hne]; [now exists v'|].
  intros [H|H]; [congruence|]. now apply IH.
Qed.

(** What [dict_set] stores: the key holds the new value, every other key
    holds what it held. *)
Lemma dict_get_set_same d k v : dict_get (dict_set d k v) k = ret v.
Proof.
  induction d as [|[k' v'] d IH]; cbn [dict_set dict_get].
  - now rewrite Z.eqb_refl.
  - destruct (Z.eqb_spec k k') as [->|Hne]; cbn [dict_get].
    + now rewrite Z.eqb_refl.
    + destruct (Z.eqb_spec k k'); [contradiction|exact IH].
Qed.

Lemma dict_get_set_other d k v k0 :
  k0 <> k -> dict_get (dict_set d k v) k0 = dict_get d k0.
Proof.
  intros Hne. induction d as [|[k' v'] d IH]; cbn [dict_set dict_get].
  - now destruct (Z.eqb_spec k0 k).
  - destruct (Z.eqb_spec k k') as [->|Hkk']; cbn [dict_get].
    + now destruct (Z.eqb_spec k0 k').
    + destruct (Z.eqb_spec k0 k'); [reflexivity|exact IH].
Qed.

(** Below 0.99, a score reaches 0.99 exactly when the new confidence does. *)
Lemma stop_test_agrees confidence current :
  (current < 99 # 100)%Q ->
  Qle_bool (99 # 100) (py_max confidence current) =
  Qle_bool (99 # 100) confidence.
Proof.
  intros Hlt. unfold py_max. destruct (Qle_bool current confidence) eqn:E;
    [reflexivity|].
  assert (Hc : (confidence < current)%Q).
  { destruct (Qlt_le_dec confidence current) as [H|H]; [assumption|].
    apply Qle_bool_iff in H. congruence. }
  destruct (Qle_bool (99 # 100) current) eqn:E1.
  { apply Qle_bool_iff in E1. exfalso. exact (Qlt_not_le _ _ Hlt E1). }
  destruct (Qle_bool (99 # 100) confidence) eqn:E2; [|reflexivity].
  apply Qle_bool_iff in E2. exfalso.
  eapply Qlt_not_le; [exact Hlt|].
  eapply Qle_trans; [exact E2|]. now apply Qlt_le_weak.
Qed.

Section SearchFacts.

Variable dist : ndarray -> ndarray -> Q.
Variable ks : list Q -> list Q -> Q * Q.

(** While the candidate loop goes on, every score stays below 0.99. *)
Lemma ad_inner_below_stop document all_documents time time_end delta_time
      cands pm pm' :
  Forall below_stop pm ->
  value (ad_inner dist ks document all_documents time time_end delta_time
                  cands pm) = Ok (pm', false) ->
  Forall below_stop pm'.
Proof.
  revert pm; induction cands as [|i cands IH]; intros pm Hpm; cbn [ad_inner].
  - now intros [= <-].
  - intros H.
    apply value_bind_ok in H as (c & _ & H).
    apply value_bind_ok in H as ([h mv] & _ & H).
    destruct h; [|now apply (IH pm)].
    apply value_bind_ok in H as (old & Hold & H).
    destruct (Qle_bool (99 # 100) mv) eqn:E; [discriminate|].
    apply (IH (dict_set pm i (py_max mv old))); [|exact H].
    apply dict_set_Forall; [assumption|].
    apply dict_get_in in Hold. rewrite Forall_forall in Hpm.
    pose proof (Hpm _ Hold) as Hlt. unfold below_stop in *. cbn [snd] in *.
    destruct (Qlt_le_dec (py_max mv old) (99 # 100)) as [Hb|Hge]; [exact Hb|].
    apply Qle_bool_iff in Hge. rewrite stop_test_agrees in Hge by assumption.
    congruence.
Qed.

(** The candidate loop at one outer time, followed by the rest of the
    search, is the search over that time's visits and the rest. *)
Lemma search_one_time document all_documents time time_end delta_time
      cands rest pm :
  Forall below_stop pm ->
  determination_search dist ks document all_documents time_end delta_time
                       (map (pair time) cands ++ rest) pm =
  '(pm', stop) <- ad_inner dist ks document all_documents time time_end
                          delta_time cands pm ;;
  if stop : bool then ret pm'
  else determination_search dist ks document all_documents time_end
                            delta_time rest pm'.
Proof.
  revert pm; induction cands as [|i cands IH]; intros pm Hpm.
  - cbn [map app ad_inner]. now rewrite bind_ret.
  - cbn [map app determination_search ad_inner].
    rewrite bind_assoc. apply bind_ext. intros c _.
    rewrite bind_assoc. apply bind_ext. intros [h mv] _.
    destruct h; [|now apply IH].
    rewrite bind_assoc. apply bind_ext. intros old Hold.
    apply dict_get_in in Hold.
    assert (Hlt : (old < 99 # 100)%Q).
    { rewrite Forall_forall in Hpm. exact (Hpm _ Hold). }
    cbv zeta. rewrite stop_test_agrees by assumption.
    destruct (Qle_bool (99 # 100) mv) eqn:E; [now rewrite bind_ret|].
    apply IH. apply dict_set_Forall; [assumption|].
    unfold below_stop. cbn [snd].
    destruct (Qlt_le_dec (py_max mv old) (99 # 100)) as [H|H]; [exact H|].
    apply Qle_bool_iff in H. rewrite stop_test_agrees in H by assumption.
    congruence.
Qed.

Lemma zero_scores_below_stop n : Forall below_stop (zero_scores n).
Proof.
  unfold zero_scores. apply Forall_forall.
  intros kv (i & <- & _)%in_map_iff. exact eq_refl.
Qed.

Lemma ad_outer_search document all_documents time_end delta_time times pm :
  Forall below_stop pm ->
  ad_outer dist ks document all_documents time_end delta_time times pm =
  determination_search dist ks document all_documents time_end delta_time
    (list_prod times (py_range1 (len all_documents))) pm.
Proof.
  revert pm; induction times as [|t times IH]; intros pm Hpm; [reflexivity|].
  cbn [ad_outer list_prod]. rewrite search_one_time by assumption.
  apply bind_ext. intros [pm' stop] H.
  destruct stop; [reflexivity|].
  apply IH. eapply ad_inner_below_stop; eassumption.
Qed.

Lemma zero_scores_get n k :
  0 <= k < n -> dict_get (zero_scores n) k = ret 0%Q.
Proof.
  intros Hk%in_py_range1. unfold zero_scores.
  induction (py_range1 n) as [|a l IH]; [destruct Hk|].
  cbn [map dict_get]. destruct (Z.eqb_spec k a) as [->|Hne]; [reflexivity|].
  destruct Hk as [Hk|Hk]; [congruence|now apply IH].
Qed.

(** One visit of the search, read through lookups in the score map. *)
Lemma search_visit_match document all_documents time_end delta_time
      time i visits scores candidate tr confidence current :
  list_index all_documents i = ret candidate ->
  author_verification dist ks candidate document time time_end delta_time
  = (tr, Ok (true, confidence)) ->
  dict_get scores i = ret current ->
  exists scores' updated,
    ((confidence <= updated)%Q /\ (current <= updated)%Q /\
     (updated = confidence \/ updated = current)) /\
    dict_get scores' i = ret updated /\
    (forall k, k <> i -> dict_get scores' k = dict_get scores k) /\
    map fst scores' = map fst scores /\
    determination_search dist ks document all_documents time_end delta_time
                         ((time, i) :: visits) scores =
    if Qle_bool (99 # 100) updated then (tr, Ok scores')
    else
      let rest := determination_search dist ks document all_documents
                    time_end delta_time visits scores' in
      (tr ++ trace rest, value rest).
Proof.
  intros Hidx Hav Hget.
  exists (dict_set scores i (py_max confidence current)),
         (py_max confidence current).
  split; [|split; [|split; [|split]]].
  - destruct (py_max_upper confidence current) as [H1 H2].
    split; [assumption|]. split; [assumption|apply py_max_cases].
  - apply dict_get_set_same.
  - intros k Hk. now apply dict_get_set_other.
  - apply dict_set_keys. apply in_map_iff. exists (i, current).
    split; [reflexivity|]. apply dict_get_in. now rewrite Hget.
  - cbn [determination_search].
    rewrite Hidx, bind_ret, (bind_ok _ _ _ _ Hav). cbv beta iota.
    rewrite Hget, bind_ret. cbv zeta.
    destruct (Qle_bool _ _); cbn [trace value fst snd ret];
      [now rewrite app_nil_r|reflexivity].
Qed.

Lemma search_visit_no_match document all_documents time_end delta_time
      time i visits scores candidate tr confidence :
  list_index all_documents i = ret candidate ->
  author_verification dist ks candidate document time time_end delta_time
  = (tr, Ok (false, confidence)) ->
  determination_search dist ks document all_documents time_end delta_time
                       ((time, i) :: visits) scores =
  let rest := determination_search dist ks document all_documents
                time_end delta_time visits scores in
  (tr ++ trace rest, value rest).
Proof.
  intros Hidx Hav. cbn [determination_search].
  now rewrite Hidx, bind_ret, (bind_ok _ _ _ _ Hav).
Qed.

(** C4. The nested loops of author_determination perform exactly the
    search over the visits (time, candidate) in sweep order, from the
    all-zero score map.  Each visit runs the Verifier on the candidate and
    the unknown document with the current outer time as its sweep start
    and the original time_end and delta_time.  On a match the score map
    afterwards holds, at that candidate, the larger of the returned
    confidence and the score it held, every other entry and the order of
    the keys being as before; if that updated score is at least 0.99 the
    whole search ends there, nothing being evaluated after this visit's
    verification, and otherwise it goes on with the updated map.  Without
    a match it goes on with the map unchanged. *)
Theorem determination_loops_perform_search
        (document : csr_matrix) (all_documents : list csr_matrix)
        (all_authors : list string) (time_start time_end delta_time : Z) :
  author_determination dist ks document all_documents all_authors
                       time_start time_end delta_time =
  (times <- py_range3 time_start time_end delta_time ;;
   scores <- determination_search dist ks document all_documents
               time_end delta_time
               (list_prod times (py_range1 (len all_documents)))
               (zero_scores (len all_authors)) ;;
   determination_selection all_authors scores)
  /\
  (forall k, 0 <= k < len all_authors ->
             dict_get (zero_scores (len all_authors)) k = ret 0%Q)
  /\
  (forall time i visits scores candidate tr confidence current,
      list_index all_documents i = ret candidate ->
      author_verification dist ks candidate document time time_end delta_time
      = (tr, Ok (true, confidence)) ->
      dict_get scores i = ret current ->
      exists scores' updated,
        ((confidence <= updated)%Q /\ (current <= updated)%Q /\
         (updated = confidence \/ updated = current)) /\
        dict_get scores' i = ret updated /\
        (forall k, k <> i -> dict_get scores' k = dict_get scores k) /\
        map fst scores' = map fst scores /\
        determination_search dist ks document all_documents
                             time_end delta_time ((time, i) :: visits) scores =
        if Qle_bool (99 # 100) updated then (tr, Ok scores')
        else
          let rest := determination_search dist ks document all_documents
                        time_end delta_time visits scores' in
          (tr ++ trace rest, value rest))
  /\
  (forall time i visits scores candidate tr confidence,
      list_index all_documents i = ret candidate ->
      author_verification dist ks candidate document time time_end delta_time
      = (tr, Ok (false, confidence)) ->
      determination_search dist ks document all_documents
                           time_end delta_time ((time, i) :: visits) scores =
      let rest := determination_search dist ks document all_documents
                    time_end delta_time visits scores in
      (tr ++ trace rest, value rest)).
Proof.
  split; [|split; [|split]].
  - unfold author_determination. apply bind_ext. intros times _.
    fold (zero_scores (len all_authors)).
    now rewrite ad_outer_search by apply zero_scores_below_stop.
  - intros k Hk. now apply zero_scores_get.
  - intros time i visits scores candidate tr confidence current H1 H2 H3.
    exact (search_visit_match document all_documents time_end delta_time
             time i visits scores candidate tr confidence current H1 H2 H3).
  - intros time i visits scores candidate tr confidence H1 H2.
    exact (search_visit_no_match document all_documents time_end delta_time
             time i visits scores candidate tr confidence H1 H2).
Qed.

End SearchFacts.

(** ** The Determiner's result *)

Lemma value_bind {A B} (m : M A) (f : A -> M B) a :
  value m = Ok a -> value (bind m f) = value (f a).
Proof.
  destruct m as [tr r]; cbn. intros ->. cbn. now destruct (f a).
Qed.

Lemma list_index_ok {A} (l : list A) i :
  0 <= i < len l ->
  exists a, list_index l i = ret a /\ nth_error l (Z.to_nat i) = Some a.
Proof.
  intros H. unfold list_index.
  destruct (Z.ltb_spec i (- len l)); [lia|].
  destruct (Z.leb_spec (len l) i); [lia|]. cbn [orb].
  destruct (Z.ltb_spec i 0); [lia|].
  destruct (nth_error l (Z.to_nat i)) as [a|] eqn:E; [now exists a|].
  apply nth_error_None in E. unfold len in H. lia.
Qed.

Lemma NoDup_py_range1 n : NoDup (py_range1 n).
Proof.
  unfold py_range1, py_range2. generalize (Z.to_nat (n - 0)) as k.
  generalize 0 as start. intros start k; revert start.
  induction k as [|k IH]; intros start; cbn [range_from]; constructor.
  - intros (j & _ & Hj)%in_range_from. lia.
  - apply IH.
Qed.

Lemma dict_get_unique d k v :
  NoDup (map fst d) -> In (k, v) d -> dict_get d k = ret v.
Proof.
  induction d as [|[k' v'] d IH]; cbn [dict_get map fst]; [intros _ []|].
  intros Hnd [[= -> ->]|Hin].
  - now rewrite Z.eqb_refl.
  - inversion Hnd as [|? ? Hni Hnd']; subst.
    destruct (Z.eqb_spec k k') as [->|Hne]; [|now apply IH].
    exfalso. apply Hni. apply in_map_iff. now exists (k', v).
Qed.

(** [max_key] picks an entry no other entry exceeds. *)
Lemma max_key_from_spec best d :
  exists v, In (max_key_from best d, v) (best :: d) /\
            Forall (fun kv => (snd kv <= v)%Q) (best :: d).
Proof.
  revert best; induction d as [|[k v'] d IH]; intros [kb vb].
  - exists vb. split; [now left|]. constructor; [apply Qle_refl|constructor].
  - cbn [max_key_from snd]. destruct (Qle_bool v' vb) eqn:E.
    + destruct (IH (kb, vb)) as (v & Hin & Hall).
      exists v. split.
      * destruct Hin as [Hin|Hin]; [now left|right; now right].
      * inversion Hall as [|? ? Hb Hd]; subst. cbn [snd] in Hb.
        constructor; [assumption|]. constructor; [|assumption].
        apply Qle_bool_iff in E. cbn [snd]. eapply Qle_trans; eassumption.
    + destruct (IH (k, v')) as (v & Hin & Hall).
      exists v. split; [now right|].
      inversion Hall as [|? ? Hb Hd]; subst. cbn [snd] in Hb.
      constructor; [|now constructor].
      cbn [snd]. eapply Qle_trans; [|exact Hb].
      destruct (Qlt_le_dec vb v') as [H|H]; [now apply Qlt_le_weak|].
      apply Qle_bool_iff in H. congruence.
Qed.

Section VerifierTotal.

Variable dist : ndarray -> ndarray -> Q.
Variable ks : list Q -> list Q -> Q * Q.

(** On documents of one dimensionality and a positive sweep the Verifier
    raises nothing. *)
Lemma author_verification_total dA dB time_start time_end delta_time :
  shape1 dA = shape1 dB -> 0 < time_start -> 0 < delta_time ->
  exists r, value (author_verification dist ks dA dB
                                       time_start time_end delta_time) = Ok r.
Proof.
  intros Hd H0 Hs.
  rewrite author_verification_unfold by (assumption || lia).
  set (times := range_list time_start time_end delta_time).
  assert (Hpos : forall t, In t times -> t <> 0).
  { intros t Ht. apply range_list_positive in Ht; lia. }
  destruct (sweep_cases dist ks dA dB times)
    as [(pre & t & post & Heq & Hpre & He & Hsig)
       |(pre & post & Heq & Hpre & Hpost)];
    rewrite Heq in *;
    assert (Hpre' : Forall (fun u => u <> 0 /\ passed dist ks dA dB u) pre)
      by (rewrite Forall_forall in *; intros u Hu; split;
          [apply Hpos, in_or_app; now left|now apply Hpre]).
  - rewrite av_loop_match; try assumption; [eexists; reflexivity|].
    apply Hpos, in_or_app. right. now left.
  - destruct post as [|t post].
    + rewrite app_nil_r, av_loop_exhausted by assumption.
      eexists; reflexivity.
    + rewrite av_loop_stop; try assumption; [eexists; reflexivity|].
      apply Hpos, in_or_app. right. now left.
Qed.

(** A positive decision carries a confidence of at least 0.05. *)
Lemma av_loop_true all_chunks document times last p :
  value (av_loop dist ks all_chunks document times last) = Ok (true, p) ->
  (5 # 100 <= p)%Q.
Proof.
  revert last; induction times as [|t times IH]; intros last; cbn [av_loop];
    [discriminate|].
  destruct (_ <=? _); [discriminate|]. intros H.
  apply value_bind_ok in H as (z1 & _ & H).
  apply value_bind_ok in H as (z2 & _ & H).
  destruct (_ || _); [discriminate|].
  apply value_bind_ok in H as ([h q] & Ht & H).
  rewrite tst_run in Ht. cbn [value snd] in Ht. injection Ht as Hh Hq.
  destruct h.
  - injection H as <-. rewrite <- Hq. now apply Qle_bool_iff.
  - eapply IH, H.
Qed.

Lemma author_verification_true dA dB time_start time_end delta_time p :
  value (author_verification dist ks dA dB time_start time_end delta_time)
  = Ok (true, p) ->
  (5 # 100 <= p)%Q.
Proof.
  unfold author_verification. intros H.
  apply value_bind_ok in H as (all_chunks & _ & H).
  apply value_bind_ok in H as (times & _ & H).
  eapply av_loop_true, H.
Qed.

End VerifierTotal.

Section DeterminerTheorems.

Variable dist : ndarray -> ndarray -> Q.
Variable ks : list Q -> list Q -> Q * Q.

Variable document : csr_matrix.
Variable all_documents : list csr_matrix.
Variable time_end delta_time : Z.
Variable times : list Z.
Variable n : Z.

Hypothesis same_dimension :
  Forall (fun c => shape1 c = shape1 document) all_documents.
Hypothesis positive_step : 0 < delta_time.
Hypothesis enough_keys : len all_documents <= n.

Let scores_ok :=
  scores_ok dist ks document all_documents times time_end delta_time n.

Lemma ad_inner_scores_ok time cands pm :
  0 < time -> In time times ->
  (forall i, In i cands -> 0 <= i < len all_documents) ->
  scores_ok pm ->
  exists pm' stop,
    value (ad_inner dist ks document all_documents time time_end delta_time
                    cands pm) = Ok (pm', stop) /\
    scores_ok pm'.
Proof.
  intros Ht Hin. revert pm; induction cands as [|i cands IH];
    intros pm Hc Hpm; cbn [ad_inner].
  - now exists pm, false.
  - assert (Hi : 0 <= i < len all_documents) by (apply Hc; now left).
    assert (Hc' : forall i', In i' cands -> 0 <= i' < len all_documents)
      by (intros; apply Hc; now right).
    destruct (list_index_ok all_documents i Hi) as (c & Hidx & Hnth).
    rewrite Hidx, bind_ret.
    assert (Hdim : shape1 c = shape1 document).
    { rewrite Forall_forall in same_dimension.
      eapply same_dimension, nth_error_In, Hnth. }
    destruct (author_verification_total dist ks c document time
                time_end delta_time Hdim Ht positive_step) as ([h mv] & Hav).
    rewrite (value_bind _ _ _ Hav).
    destruct h; [|now apply IH].
    destruct Hpm as [Hkeys Horigin].
    assert (Hkey : In i (map fst pm))
      by (rewrite Hkeys; apply in_py_range1; lia).
    destruct (dict_get_ok pm i Hkey) as (old & Hold).
    rewrite Hold, bind_ret.
    assert (Hpm' : scores_ok (dict_set pm i (py_max mv old))).
    { split; [now rewrite dict_set_keys|].
      apply dict_set_Forall; [assumption|].
      destruct (py_max_cases mv old) as [-> | ->].
      - right. exists time, c. cbn [fst snd]. repeat split; (assumption || lia).
      - rewrite Forall_forall in Horigin. apply Horigin.
        apply dict_get_in. now rewrite Hold. }
    destruct (Qle_bool _ _); [|now apply IH].
    now exists (dict_set pm i (py_max mv old)), true.
Qed.

Lemma ad_outer_scores_ok swept pm :
  (forall t, In t swept -> 0 < t /\ In t times) ->
  scores_ok pm ->
  exists pm',
    value (ad_outer dist ks document all_documents time_end delta_time
                    swept pm) = Ok pm' /\
    scores_ok pm'.
Proof.
  revert pm; induction swept as [|t swept IH]; intros pm Hs Hpm; cbn [ad_outer].
  - now exists pm.
  - destruct (Hs t (or_introl eq_refl)) as [Ht Hin].
    destruct (ad_inner_scores_ok t (py_range1 (len all_documents)) pm Ht Hin
                ltac:(intros i Hi%in_py_range1; exact Hi) Hpm)
      as (pm' & stop & Hv & Hpm').
    rewrite (value_bind _ _ _ Hv).
    destruct stop; [now exists pm'|].
    apply IH; [|assumption]. intros; apply Hs; now right.
Qed.

End DeterminerTheorems.

Section DeterminerResult.

Variable dist : ndarray -> ndarray -> Q.
Variable ks : list Q -> list Q -> Q * Q.

Lemma zero_scores_ok document all_documents times time_end delta_time n :
  scores_ok dist ks document all_documents times time_end delta_time n
            (zero_scores n).
Proof.
  unfold scores_ok, zero_scores. split.
  - rewrite map_map. cbn [fst]. apply map_id.
  - apply Forall_forall. intros entry (i & <- & _)%in_map_iff. now left.
Qed.


End DeterminerResult.

(** * The theorems at concrete inputs *)

Lemma ks_2samp_surrogate_nonneg z1 z2 :
  (0 <= snd (ks_2samp_surrogate z1 z2))%Q.
Proof.
  unfold ks_2samp_surrogate. cbn [snd]. rewrite Qred_correct.
  apply Q.le_max_l.
Qed.

Lemma author_verification_first_match_wins_witness :
  (shape1 docC = shape1 docA /\ 0 < 2 /\ 0 < 1 /\
   forall z1 z2, (0 <= snd (ks_2samp_surrogate z1 z2))%Q) /\
  (let times := range_list 2 9 1 in
  let run := author_verification canberra ks_2samp_surrogate docC docA 2 9 1 in
  (exists pre t post,
      times = pre ++ t :: post /\
      Forall (fun u => u < t /\ passed canberra ks_2samp_surrogate docC docA u) pre /\
      evaluable canberra docC docA t /\ signals canberra ks_2samp_surrogate docC docA t /\
      run = (flat_map (step_events canberra docC docA) (pre ++ [t]),
             Ok (true, step_pvalue canberra ks_2samp_surrogate docC docA t)))
  \/
  (exists pre post q,
      times = pre ++ post /\
      Forall (passed canberra ks_2samp_surrogate docC docA) pre /\
      match post with
      | [] => True
      | t :: _ => ~ evaluable canberra docC docA t
      end /\
      value run = Ok (false, q) /\
      q = running_max (-1)%Q (map (step_pvalue canberra ks_2samp_surrogate docC docA) pre) /\
      (pre <> [] -> In q (map (step_pvalue canberra ks_2samp_surrogate docC docA) pre)) /\
      Forall (fun p => (p <= q)%Q) (map (step_pvalue canberra ks_2samp_surrogate docC docA) pre) /\
      tests_of (trace run) =
      map (fun u => (step_z1 canberra docC docA u, step_z2 canberra docC docA u)) pre)).
Proof.
  split; [repeat split; try lia; apply ks_2samp_surrogate_nonneg|].
  apply (author_verification_first_match_wins canberra ks_2samp_surrogate docC docA 2 9 1); try reflexivity; try lia; apply ks_2samp_surrogate_nonneg.
Defined.

Lemma author_verification_stops_without_testing_witness :
  (shape1 docC = shape1 docA /\ 0 < 2 /\ 0 < 3 /\
   shape1 docA = shape1 docB /\ 0 < 5 /\ 0 < 1) /\
  (range_list 2 9 3 = [2] ++ 5 :: [8] /\
   passed canberra ks_2samp_surrogate docC docA 2 /\
   step_pvalue canberra ks_2samp_surrogate docC docA 2 = 0%Q /\
   5 < shape0 docC /\ step_z1 canberra docC docA 5 = [] /\
   value (author_verification canberra ks_2samp_surrogate docC docA 2 9 3)
   = Ok (false, 0%Q) /\
   tests_of (trace (author_verification canberra ks_2samp_surrogate
                                        docC docA 2 9 3))
   = [(step_z1 canberra docC docA 2, step_z2 canberra docC docA 2)] /\
   trace (author_verification canberra ks_2samp_surrogate docC docA 2 9 3)
   = step_events canberra docC docA 2 ++ abort_events docC docA 5) /\
  (shape0 docA <= 5 /\
   author_verification canberra ks_2samp_surrogate docA docB 5 9 1
   = ([], Ok (false, (-1)%Q))).
Proof.
  assert (Hpassed : passed canberra ks_2samp_surrogate docC docA 2).
  { split.
    - split; [reflexivity|]. split; vm_compute; discriminate.
    - unfold signals. vm_compute. intros H. apply H. reflexivity. }
  split; [repeat split; lia|]. split.
  - pose proof (author_verification_stops_without_testing
                  canberra ks_2samp_surrogate docC docA 2 9 3
                  eq_refl ltac:(lia) ltac:(lia)) as H.
    cbv zeta in H. destruct H as [Hstop _].
    destruct (Hstop [2] 5 [8] eq_refl
                    (Forall_cons 2 Hpassed (Forall_nil _))
                    (or_intror (or_introl eq_refl)))
      as (Hv & Ht & Htr & _).
    split; [reflexivity|]. split; [exact Hpassed|].
    split; [reflexivity|]. split; [reflexivity|]. split; [reflexivity|].
    split; [exact Hv|]. split; [exact Ht|].
    rewrite Htr. cbn [flat_map]. now rewrite app_nil_r.
  - pose proof (author_verification_stops_without_testing
                  canberra ks_2samp_surrogate docA docB 5 9 1
                  eq_refl ltac:(lia) ltac:(lia)) as H.
    cbv zeta in H. destruct H as [_ Himmediate].
    split; [vm_compute; discriminate|].
    apply Himmediate. vm_compute. discriminate.
Defined.


Lemma sample_builders_index_ranges_witness :
  (2 <> 0) /\
  (let all_chunks := merged docA docB in
  let m1 := shape0 docA in
  let m2 := shape0 docB in
  (exists z1,
      value (zv_z1 canberra all_chunks docA 2) = Ok z1 /\
      len z1 = Z.max 0 (m1 - 2 - 1) /\
      forall k, 0 <= k < len z1 ->
                nth (Z.to_nat k) z1 0%Q = ZV canberra all_chunks (2 + 1 + k) 2)
  /\
  (2 <= 2 * m1 + m2 + 2 ->
   exists z2,
      value (zv_z2 canberra all_chunks docA 2) = Ok z2 /\
      len z2 = Z.max 0 (m2 - 1) /\
      forall k, 0 <= k < len z2 ->
                nth (Z.to_nat k) z2 0%Q = ZV canberra all_chunks (m1 + 1 + k) 2)).
Proof.
  split; [lia|].
  apply (sample_builders_index_ranges canberra docA docB 2); lia.
Defined.

Lemma zv_function_windowed_mean_witness :
  (1 <= 3) /\
  (let n := shape0 docA in
  let term j := ChunkDistance canberra (chunk_at docA 4) (chunk_at docA (4 - j)) in
  (- n <= 4 < n /\ - n <= 4 - (3 - 1) ->
   value (zv_function canberra docA 3 4) =
   Ok ((1 / inject_Z 3) * big_sum (Z.to_nat 3) term)%Q /\
   trace (zv_function canberra docA 3 4) =
   DistanceCall 4 (4 - 0) ::
   map (fun j => DistanceCall 4 (4 - j)) (py_range2 1 3) /\
   big_sum (Z.to_nat 3) term =
   fold_left (fun acc j => acc + term j)%Q (py_range2 1 3) (0 + term 0%Z)%Q)
  /\
  (~ (- n <= 4 < n /\ - n <= 4 - (3 - 1)) ->
   value (zv_function canberra docA 3 4) = Raise IndexError)).
Proof.
  split; [lia|].
  apply (zv_function_windowed_mean canberra docA 3 4); lia.
Defined.

Lemma zv_function_negative_index_wraps_witness :
  (1 <= 3 /\ - shape0 docA <= 1 < shape0 docA /\ - shape0 docA <= 1 - (3 - 1) /\
   0 <= 2 < 3 /\ 1 - 2 < 0) /\
  (getrow docA (1 - 2) =
  ret {| shape1 := shape1 docA;
         rows := [nth (Z.to_nat (shape0 docA + (1 - 2))) (rows docA) []] |} /\
  chunk_at docA (1 - 2) =
  nth (Z.to_nat (shape0 docA + (1 - 2))) (rows docA) [] /\
  In (DistanceCall 1 (1 - 2)) (trace (zv_function canberra docA 3 1)) /\
  value (zv_function canberra docA 3 1) =
  Ok ((1 / inject_Z 3) *
      big_sum (Z.to_nat 3)
        (fun j' => ChunkDistance canberra (chunk_at docA 1)
                                 (chunk_at docA (1 - j'))))%Q).
Proof.
  split; [vm_compute; repeat split; discriminate|].
  apply (zv_function_negative_index_wraps canberra docA 3 1 2); vm_compute; repeat split; discriminate.
Defined.

Lemma zero_window_fails_by_division_only_witness :
  (shape1 docA = shape1 docB /\ shape1 doc1A = shape1 doc1B /\
   0 < 4 /\ 0 < 1) /\
  (2 <= shape0 docA /\
   zv_function canberra docA 0 3 = ([], Raise ZeroDivisionError) /\
   zv_function canberra docA (-2) 3
   = ([], Ok ((1 / inject_Z (-2)) * 0)%Q) /\
   author_verification canberra ks_2samp_surrogate docA docB 0 4 1
   = ([], Raise ZeroDivisionError) /\
   author_determination canberra ks_2samp_surrogate docB [docA; docC]
                        ["x"%string; "y"%string] 0 4 1
   = ([], Raise ZeroDivisionError)) /\
  (shape0 doc1A = 1 /\ shape0 doc1B <= 1 /\
   author_verification canberra ks_2samp_surrogate doc1A doc1B 0 4 1
   = ([], Ok (false, (-1)%Q)) /\
   author_determination canberra ks_2samp_surrogate doc1B [doc1A]
                        ["x"%string] 0 4 1
   = ([], Ok (None, [(0, 0%Q)]))).
Proof.
  split; [repeat split; lia|]. split.
  - pose proof (zero_window_fails_by_division_only
                  canberra ks_2samp_surrogate docA docB 4 1
                  eq_refl ltac:(lia) ltac:(lia)) as H.
    cbv zeta in H. destruct H as (Hzero & Hneg & Hfail & _ & Hdet & _).
    assert (Hsize : 2 <= shape0 docA) by (vm_compute; discriminate).
    split; [exact Hsize|]. split; [apply Hzero|].
    split; [apply Hneg; lia|].
    split; [apply Hfail; now left|].
    apply Hdet. now left.
  - pose proof (zero_window_fails_by_division_only
                  canberra ks_2samp_surrogate doc1A doc1B 4 1
                  eq_refl ltac:(lia) ltac:(lia)) as H.
    cbv zeta in H. destruct H as (_ & _ & _ & Hpass & _ & Hdet).
    assert (Hsize : shape0 doc1A = 1 /\ shape0 doc1B <= 1)
      by (split; [reflexivity|vm_compute; discriminate]).
    split; [apply Hsize|]. split; [apply Hsize|].
    split; [apply Hpass; now right|].
    apply Hdet. now right.
Defined.

(** The Determiner on a small corpus: both candidates match the unknown
    document, each score is the confidence that was recorded for it, and
    the author of the larger score is returned. *)
Example author_determination_records_matches :
  value (author_determination canberra ks_2samp_surrogate docA [docB; docC]
                              ["x"%string; "y"%string] 2 4 1)
  = Ok (Some "y"%string, [(0, (1 # 4)%Q); (1, (1 # 2)%Q)]) /\
  value (author_verification canberra ks_2samp_surrogate docB docA 2 4 1)
  = Ok (true, (1 # 4)%Q) /\
  value (author_verification canberra ks_2samp_surrogate docC docA 2 4 1)
  = Ok (true, (1 # 2)%Q).
Proof. repeat split; vm_compute; reflexivity. Qed.

(** * Further properties of the Verifier and the Determiner *)

Lemma py_max_below a b c : (a < c)%Q -> (b < c)%Q -> (py_max a b < c)%Q.
Proof. intros Ha Hb. now destruct (py_max_cases a b) as [-> | ->]. Qed.

Lemma value_list_index_in {A} (l : list A) i a :
  value (list_index l i) = Ok a -> In a l.
Proof.
  unfold list_index. destruct (_ || _); [discriminate|].
  destruct (nth_error _ _) eqn:E; [|discriminate].
  intros [= <-]. eapply nth_error_In, E.
Qed.

Section VerifierOutcomes.

Variable dist : ndarray -> ndarray -> Q.
Variable ks : list Q -> list Q -> Q * Q.

Lemma av_loop_false all_chunks document times last q :
  (last < 5 # 100)%Q ->
  value (av_loop dist ks all_chunks document times last) = Ok (false, q) ->
  (q < 5 # 100)%Q.
Proof.
  revert last; induction times as [|t times IH]; intros last Hlast;
    cbn [av_loop].
  - now intros [= <-].
  - destruct (_ <=? _); [now intros [= <-]|]. intros H.
    apply value_bind_ok in H as (z1 & _ & H).
    apply value_bind_ok in H as (z2 & _ & H).
    destruct (_ || _); [now injection H as <-|].
    apply value_bind_ok in H as ([h p] & Ht & H).
    rewrite tst_run in Ht. cbn [value snd] in Ht. injection Ht as Hh Hp.
    destruct h; [discriminate|].
    apply (IH (py_max last p)); [|exact H].
    apply py_max_below; [assumption|].
    destruct (Qlt_le_dec p (5 # 100)) as [Hlt|Hge]; [assumption|].
    rewrite <- Hp in Hge. apply Qle_bool_iff in Hge. congruence.
Qed.

(** X1. Whenever author_verification returns, its decision is true exactly
    when the returned confidence is at least 0.05: a match carries the
    p-value that passed the test, and a non-match carries -1 or the
    largest p-value seen, all of which failed it. *)
Theorem author_verification_decision_is_threshold
        (dA dB : csr_matrix) (time_start time_end delta_time : Z) :
  match value (author_verification dist ks dA dB
                                   time_start time_end delta_time) with
  | Ok (h, confidence) => h = true <-> (5 # 100 <= confidence)%Q
  | Raise _ => True
  end.
Proof.
  destruct (value _) as [[h p]|e] eqn:E; [|exact I].
  destruct h.
  - split; [intros _|reflexivity].
    eapply author_verification_true, E.
  - split; [discriminate|]. intros Hge. exfalso.
    unfold author_verification in E.
    apply value_bind_ok in E as (all_chunks & _ & E).
    apply value_bind_ok in E as (times & _ & E).
    apply av_loop_false in E; [|exact eq_refl].
    exact (Qlt_not_le _ _ E Hge).
Qed.

Lemma zv_builder_zero chunks start stop :
  mapM (fun i => zv_function dist chunks 0 i) (py_range2 start stop) =
  if start <? stop then raise ZeroDivisionError else ret [].
Proof.
  destruct (Z.ltb_spec start stop).
  - now apply zv_builder_zero_raises.
  - now apply zv_builder_empty.
Qed.

Lemma av_loop_outcomes dA dB times last :
  (exists r, value (av_loop dist ks (merged dA dB) dA times last) = Ok r) \/
  (value (av_loop dist ks (merged dA dB) dA times last)
   = Raise ZeroDivisionError /\ In 0 times).
Proof.
  revert last; induction times as [|t times IH]; intros last.
  - left. now exists (false, last).
  - destruct (Z_le_gt_dec (shape0 dA) t) as [Hge|Hlt].
    { rewrite av_loop_break by assumption. left. now exists (false, last). }
    destruct (Z.eq_dec t 0) as [->|Hnz].
    + cbn [av_loop]. destruct (Z.leb_spec (shape0 dA) 0); [lia|].
      unfold zv_z1, zv_z2. rewrite !zv_builder_zero.
      destruct (0 + 1 <? shape0 dA);
        [right; split; [reflexivity|now left]|].
      rewrite bind_ret.
      destruct (shape0 dA + 1 <? shape0 (merged dA dB));
        [right; split; [reflexivity|now left]|].
      rewrite bind_ret. left. now exists (false, last).
    + rewrite av_loop_step by (assumption || lia).
      destruct (_ || _); [left; now eexists|].
      destruct (Qle_bool _ _); [left; now eexists|].
      cbv zeta. cbn [value snd].
      destruct (IH (py_max last (step_pvalue dist ks dA dB t)))
        as [Hok|[Hz Hin]]; [now left|right].
      split; [assumption|now right].
Qed.

Lemma author_verification_raises dA dB time_start time_end delta_time e :
  value (author_verification dist ks dA dB time_start time_end delta_time)
  = Raise e ->
  e = ValueError \/ e = ZeroDivisionError.
Proof.
  unfold author_verification, merge_documents.
  destruct (Z.eqb_spec (shape1 dA) (shape1 dB)) as [Hd|Hd];
    [|intros [= <-]; now left].
  rewrite bind_ret. unfold py_range3.
  destruct (delta_time =? 0); [intros [= <-]; now left|].
  rewrite bind_ret. fold (merged dA dB). intros H.
  destruct (av_loop_outcomes dA dB
              (range_list time_start time_end delta_time) (-1)%Q)
    as [(r & Hr)|(Hz & _)]; rewrite H in *; [discriminate|].
  injection Hz as ->. now right.
Qed.

(** X2. The exceptions of author_verification.  Documents of different
    dimensionality, or a zero step, raise ValueError before anything is
    evaluated.  Otherwise the only possible failure is the division by a
    window size of 0, which takes 0 to be among the swept times; in
    particular the Verifier never raises IndexError or KeyError, whatever
    the documents and the sweep (negative start, negative step). *)
Theorem author_verification_exceptions
        (dA dB : csr_matrix) (time_start time_end delta_time : Z) :
  let run := author_verification dist ks dA dB
                                 time_start time_end delta_time in
  (shape1 dA <> shape1 dB \/ delta_time = 0 <->
   value run = Raise ValueError) /\
  (value run = Raise ValueError -> trace run = []) /\
  (value run = Raise ZeroDivisionError ->
   In 0 (range_list time_start time_end delta_time)) /\
  value run <> Raise IndexError /\
  value run <> Raise KeyError.
Proof.
  intros run.
  destruct (Z.eq_dec (shape1 dA) (shape1 dB)) as [Hd|Hd].
  - destruct (Z.eq_dec delta_time 0) as [Hs|Hs].
    + assert (Hrun : run = ([], Raise ValueError)).
      { subst run. unfold author_verification.
        rewrite merge_documents_ok, bind_ret by assumption.
        unfold py_range3. now rewrite Hs. }
      rewrite Hrun. cbn [value trace fst snd].
      repeat split; try discriminate; auto.
    + assert (Hrun : run = av_loop dist ks (merged dA dB) dA
                                   (range_list time_start time_end delta_time)
                                   (-1)%Q)
        by now apply author_verification_unfold.
      rewrite Hrun.
      destruct (av_loop_outcomes dA dB
                  (range_list time_start time_end delta_time) (-1)%Q)
        as [(r & Hr)|(Hz & Hin)].
      * rewrite Hr. repeat split; try discriminate.
        intros [H|H]; contradiction.
      * rewrite Hz. repeat split; try discriminate; auto.
        intros [H|H]; contradiction.
  - assert (Hrun : run = ([], Raise ValueError)).
    { subst run. unfold author_verification, merge_documents.
      now destruct (Z.eqb_spec (shape1 dA) (shape1 dB)). }
    rewrite Hrun. cbn [value trace fst snd].
    repeat split; try discriminate; auto.
Qed.

End VerifierOutcomes.

Lemma value_bind_raise {A B} (m : M A) (f : A -> M B) e :
  value (bind m f) = Raise e ->
  value m = Raise e \/ exists a, value m = Ok a /\ value (f a) = Raise e.
Proof.
  destruct m as [tr [a|e']]; cbn.
  - destruct (f a) as [tr' r] eqn:E; cbn. intros ->. right.
    exists a. now rewrite E.
  - intros [= ->]. now left.
Qed.

Lemma dict_get_raise d k e :
  value (dict_get d k) = Raise e -> e = KeyError /\ ~ In k (map fst d).
Proof.
  induction d as [|[k' v] d IH]; cbn [dict_get map fst].
  - intros [= <-]. split; [reflexivity|intros []].
  - destruct (Z.eqb_spec k k') as [->|Hne]; [discriminate|].
    intros H. destruct (IH H) as [-> Hni]. split; [reflexivity|].
    intros [Heq|Hin]; [congruence|contradiction].
Qed.

(** A score the Determiner can hold: the default, or a confidence that
    passed the test. *)
Definition admissible_score (entry : Z * Q) : Prop :=
  snd entry = 0%Q \/ (5 # 100 <= snd entry)%Q.

Section DeterminerOutcomes.

Variable dist : ndarray -> ndarray -> Q.
Variable ks : list Q -> list Q -> Q * Q.

Lemma ad_inner_keeps document all_documents time time_end delta_time
      cands pm pm' stop :
  value (ad_inner dist ks document all_documents time time_end delta_time
                  cands pm) = Ok (pm', stop) ->
  map fst pm' = map fst pm /\
  (Forall admissible_score pm -> Forall admissible_score pm').
Proof.
  revert pm; induction cands as [|i cands IH]; intros pm; cbn [ad_inner].
  - intros [= <- <-]. now split.
  - intros H.
    apply value_bind_ok in H as (c & _ & H).
    apply value_bind_ok in H as ([h mv] & Hav & H).
    destruct h; [|now apply IH].
    apply value_bind_ok in H as (old & Hold & H).
    apply dict_get_in in Hold.
    assert (Hkeys : map fst (dict_set pm i (py_max mv old)) = map fst pm).
    { apply dict_set_keys. apply in_map_iff. now exists (i, old). }
    assert (Hadm : Forall admissible_score pm ->
                   Forall admissible_score (dict_set pm i (py_max mv old))).
    { intros Hpm. apply dict_set_Forall; [assumption|].
      destruct (py_max_cases mv old) as [-> | ->].
      - right. cbn [snd]. eapply author_verification_true, Hav.
      - rewrite Forall_forall in Hpm. now apply Hpm. }
    destruct (Qle_bool _ _).
    + injection H as <- <-. now split.
    + destruct (IH _ H) as [Hk Ha]. split; [congruence|auto].
Qed.

Lemma ad_outer_keeps document all_documents time_end delta_time times pm pm' :
  value (ad_outer dist ks document all_documents time_end delta_time
                  times pm) = Ok pm' ->
  map fst pm' = map fst pm /\
  (Forall admissible_score pm -> Forall admissible_score pm').
Proof.
  revert pm; induction times as [|t times IH]; intros pm; cbn [ad_outer].
  - intros [= <-]. now split.
  - intros H. apply value_bind_ok in H as ([pm1 stop] & Hin & H).
    apply ad_inner_keeps in Hin as [Hk Ha].
    destruct stop.
    + injection H as <-. now split.
    + destruct (IH _ H) as [Hk' Ha']. split; [congruence|auto].
Qed.

Lemma ad_inner_raises document all_documents time time_end delta_time
      cands pm e :
  (forall i, In i cands -> 0 <= i < len all_documents) ->
  value (ad_inner dist ks document all_documents time time_end delta_time
                  cands pm) = Raise e ->
  e <> IndexError /\
  (e = KeyError -> exists i, 0 <= i < len all_documents /\ ~ In i (map fst pm)).
Proof.
  revert pm; induction cands as [|i cands IH]; intros pm Hc; cbn [ad_inner];
    [discriminate|].
  assert (Hi : 0 <= i < len all_documents) by (apply Hc; now left).
  assert (Hc' : forall i', In i' cands -> 0 <= i' < len all_documents)
    by (intros; apply Hc; now right).
  destruct (list_index_ok all_documents i Hi) as (c & Hidx & _).
  rewrite Hidx, bind_ret. intros H.
  apply value_bind_raise in H as [H|([h mv] & Hav & H)].
  { apply author_verification_raises in H as [-> | ->];
      split; discriminate. }
  destruct h; [|now apply IH].
  apply value_bind_raise in H as [H|(old & Hold & H)].
  { apply dict_get_raise in H as [-> Hni]. split; [discriminate|].
    intros _. now exists i. }
  destruct (Qle_bool _ _); [discriminate|].
  destruct (IH _ Hc' H) as [Hne Hk]. split; [assumption|].
  intros He. destruct (Hk He) as (i' & Hi' & Hni). exists i'.
  split; [assumption|].
  rewrite dict_set_keys in Hni; [assumption|].
  apply dict_get_in in Hold. apply in_map_iff. now exists (i, old).
Qed.

Lemma ad_outer_raises document all_documents time_end delta_time times pm e :
  value (ad_outer dist ks document all_documents time_end delta_time
                  times pm) = Raise e ->
  e <> IndexError /\
  (e = KeyError -> exists i, 0 <= i < len all_documents /\ ~ In i (map fst pm)).
Proof.
  revert pm; induction times as [|t times IH]; intros pm; cbn [ad_outer];
    [discriminate|].
  intros H. apply value_bind_raise in H as [H|([pm1 stop] & Hin & H)].
  - eapply ad_inner_raises, H. now intros i Hi%in_py_range1.
  - destruct stop; [discriminate|].
    destruct (IH _ H) as [Hne Hk]. split; [assumption|].
    apply ad_inner_keeps in Hin as [Hkeys _]. now rewrite <- Hkeys.
Qed.

Lemma author_determination_no_candidates document time_start time_end
      delta_time :
  author_determination dist ks document [] [] time_start time_end delta_time
  = ([], Raise ValueError).
Proof.
  unfold author_determination, py_range3.
  destruct (delta_time =? 0); [reflexivity|]. rewrite bind_ret.
  assert (H : forall times,
             ad_outer dist ks document [] time_end delta_time times [] = ret []).
  { induction times as [|t times IH]; [reflexivity|].
    cbn [ad_outer]. change (py_range1 (len (@nil csr_matrix))) with (@nil Z).
    cbn [ad_inner]. now rewrite bind_ret. }
  change (map (fun i => (i, 0%Q)) (py_range1 (len (@nil string))))
    with (@nil (Z * Q)).
  now rewrite H.
Qed.

(** X3. With no candidate at all the Determiner fails: selecting the best
    entry of the empty score map raises ValueError, whatever the document
    and the sweep, and nothing is evaluated.  Candidates without authors
    fare no better: the search may run, but it ends in ValueError (no
    entry to select) unless a match raised KeyError before. *)
Theorem author_determination_empty_corpus
        (document : csr_matrix) (all_documents : list csr_matrix)
        (time_start time_end delta_time : Z) :
  author_determination dist ks document [] [] time_start time_end delta_time
  = ([], Raise ValueError) /\
  forall r,
    value (author_determination dist ks document all_documents []
                                time_start time_end delta_time) <> Ok r.
Proof.
  split; [apply author_determination_no_candidates|].
  intros r E. unfold author_determination in E.
  apply value_bind_ok in E as (times & _ & E).
  apply value_bind_ok in E as (pm & Hpm & E).
  apply ad_outer_keeps in Hpm as [Hkeys _].
  destruct pm; [|discriminate].
  apply value_bind_ok in E as (best & Hbest & _). discriminate.
Qed.

Lemma author_determination_total document all_documents all_authors
      time_start time_end delta_time :
  all_documents <> [] ->
  length all_documents = length all_authors ->
  Forall (fun c => shape1 c = shape1 document) all_documents ->
  0 < time_start -> 0 < delta_time ->
  exists r, value (author_determination dist ks document all_documents
                                        all_authors
                                        time_start time_end delta_time) = Ok r.
Proof.
  intros Hne Hlen Hdim H0 Hs.
  set (times := range_list time_start time_end delta_time).
  assert (Hn : len all_authors = len all_documents)
    by (unfold len; now rewrite Hlen).
  destruct (ad_outer_scores_ok dist ks document all_documents time_end
              delta_time times (len all_authors) Hdim Hs ltac:(lia)
              times (zero_scores (len all_authors)))
    as (pm & Hpm & Hkeys & _).
  { intros t Ht. split; [|assumption].
    now apply (range_list_positive time_start time_end delta_time). }
  { apply zero_scores_ok. }
  unfold author_determination.
  rewrite py_range3_ok, bind_ret by lia.
  fold (zero_scores (len all_authors)). fold times.
  rewrite (value_bind _ _ _ Hpm).
  assert (Hpos : 0 < len all_authors).
  { rewrite Hn. unfold len. destruct all_documents; [contradiction|cbn; lia]. }
  destruct pm as [|kv d].
  { exfalso. unfold py_range1 in Hkeys. rewrite py_range2_cons in Hkeys by lia.
    discriminate. }
  cbn [max_key]. rewrite bind_ret.
  destruct (max_key_from_spec kv d) as (v & Hin & _).
  set (best := max_key_from kv d) in *.
  assert (Hget : dict_get (kv :: d) best = ret v).
  { apply dict_get_unique; [|assumption]. rewrite Hkeys. apply NoDup_py_range1. }
  rewrite Hget, bind_ret.
  assert (Hbest : 0 <= best < len all_authors).
  { apply in_py_range1. rewrite <- Hkeys. apply in_map_iff.
    now exists (best, v). }
  destruct (Qeq_bool v 0); [now eexists|].
  destruct (list_index_ok all_authors best Hbest) as (a & Hidx & _).
  rewrite Hidx, bind_ret. now eexists.
Qed.

Lemma author_determination_result_keys document all_documents all_authors
      time_start time_end delta_time r :
  value (author_determination dist ks document all_documents all_authors
                              time_start time_end delta_time) = Ok r ->
  map fst (snd r) = py_range1 (len all_authors).
Proof.
  intros E. unfold author_determination in E.
  apply value_bind_ok in E as (times & _ & E).
  apply value_bind_ok in E as (pm & Hpm & E).
  apply ad_outer_keeps in Hpm as [Hkeys _].
  rewrite map_map in Hkeys. cbn [fst] in Hkeys. rewrite map_id in Hkeys.
  apply value_bind_ok in E as (best & _ & E).
  apply value_bind_ok in E as (v & _ & E).
  destruct (Qeq_bool v 0); [now injection E as <-|].
  apply value_bind_ok in E as (a & _ & E). now injection E as <-.
Qed.

(** X4. Whatever the input, when author_determination returns: the score map
    has exactly the keys 0 .. len(all_authors)-1 in order; every score is
    the default 0 or at least 0.05; a returned author is one of
    all_authors and belongs to an entry of maximal score, which is at
    least 0.05; and None is returned only when every score is 0. *)
Theorem author_determination_result_shape
        (document : csr_matrix) (all_documents : list csr_matrix)
        (all_authors : list string) (time_start time_end delta_time : Z) :
  match value (author_determination dist ks document all_documents
                                    all_authors
                                    time_start time_end delta_time) with
  | Ok (decision, scores) =>
      map fst scores = py_range1 (len all_authors) /\
      Forall admissible_score scores /\
      match decision with
      | None => Forall (fun entry => snd entry = 0%Q) scores
      | Some author =>
          In author all_authors /\
          exists best score,
            In (best, score) scores /\
            nth_error all_authors (Z.to_nat best) = Some author /\
            (5 # 100 <= score)%Q /\
            Forall (fun entry => (snd entry <= score)%Q) scores
      end
  | Raise _ => True
  end.
Proof.
  destruct (value _) as [[decision scores]|e] eqn:E; [|exact I].
  unfold author_determination in E.
  apply value_bind_ok in E as (times & _ & E).
  apply value_bind_ok in E as (pm & Hpm & E).
  apply ad_outer_keeps in Hpm as [Hkeys Hadm].
  rewrite map_map in Hkeys. cbn [fst] in Hkeys. rewrite map_id in Hkeys.
  assert (Hall : Forall admissible_score pm).
  { apply Hadm. apply Forall_forall. intros entry (i & <- & _)%in_map_iff.
    now left. }
  apply value_bind_ok in E as (best & Hbest & E).
  destruct pm as [|kv d]; [discriminate|].
  cbn [max_key ret value snd] in Hbest. injection Hbest as Hbest.
  destruct (max_key_from_spec kv d) as (v & Hin & Hmax).
  rewrite Hbest in Hin.
  assert (Hget : dict_get (kv :: d) best = ret v).
  { apply dict_get_unique; [|assumption]. rewrite Hkeys. apply NoDup_py_range1. }
  rewrite Hget, bind_ret in E.
  assert (Hrange : 0 <= best < len all_authors).
  { apply in_py_range1. rewrite <- Hkeys. apply in_map_iff.
    now exists (best, v). }
  pose proof Hall as Hall'. rewrite Forall_forall in Hall'.
  destruct (Qeq_bool v 0) eqn:Ez.
  - injection E as <- <-. split; [assumption|]. split; [assumption|].
    apply Forall_forall. intros entry Hentry.
    destruct (Hall' _ Hentry) as [Hz|Hge]; [assumption|].
    rewrite Forall_forall in Hmax. pose proof (Hmax _ Hentry) as Hle.
    apply Qeq_bool_iff in Ez. rewrite Ez in Hle.
    exfalso. apply (Qlt_not_le 0 (5 # 100)); [exact eq_refl|].
    eapply Qle_trans; eassumption.
  - destruct (list_index_ok all_authors best Hrange) as (a & Hidx & Hnth).
    rewrite Hidx, bind_ret in E. injection E as <- <-.
    split; [assumption|]. split; [assumption|].
    split; [eapply nth_error_In, Hnth|].
    exists best, v. split; [assumption|]. split; [assumption|].
    split; [|assumption].
    destruct (Hall' _ Hin) as [Hz|Hge]; [|assumption].
    cbn [snd] in Hz. subst v. discriminate.
Qed.

(** X5. The exceptions of author_determination: it never raises IndexError,
    and it raises KeyError only when there are more candidate documents
    than authors (a match of a candidate that has no entry in the score
    map). *)
Theorem author_determination_exceptions
        (document : csr_matrix) (all_documents : list csr_matrix)
        (all_authors : list string) (time_start time_end delta_time : Z) :
  let result := value (author_determination dist ks document all_documents
                                            all_authors
                                            time_start time_end delta_time) in
  result <> Raise IndexError /\
  (result = Raise KeyError -> len all_authors < len all_documents).
Proof.
  intros result.
  assert (H : forall e, result = Raise e ->
                        e <> IndexError /\
                        (e = KeyError -> len all_authors < len all_documents)).
  { intros e E. subst result. unfold author_determination in E.
    apply value_bind_raise in E as [E|(times & _ & E)].
    { unfold py_range3 in E. destruct (_ =? _); [|discriminate].
      injection E as <-. split; discriminate. }
    apply value_bind_raise in E as [E|(pm & Hpm & E)].
    { apply ad_outer_raises in E as [Hne Hk]. split; [assumption|].
      intros He. destruct (Hk He) as (i & Hi & Hni).
      rewrite map_map in Hni. cbn [fst] in Hni. rewrite map_id in Hni.
      rewrite in_py_range1 in Hni. lia. }
    apply ad_outer_keeps in Hpm as [Hkeys _].
    rewrite map_map in Hkeys. cbn [fst] in Hkeys. rewrite map_id in Hkeys.
    apply value_bind_raise in E as [E|(best & Hbest & E)].
    { destruct pm; [|discriminate]. injection E as <-. split; discriminate. }
    destruct pm as [|kv d]; [discriminate|].
    cbn [max_key ret value snd] in Hbest. injection Hbest as Hbest.
    destruct (max_key_from_spec kv d) as (v & Hin & _). rewrite Hbest in Hin.
    assert (Hget : dict_get (kv :: d) best = ret v).
    { apply dict_get_unique; [|assumption]. rewrite Hkeys.
      apply NoDup_py_range1. }
    rewrite Hget, bind_ret in E.
    assert (Hrange : 0 <= best < len all_authors).
    { apply in_py_range1. rewrite <- Hkeys. apply in_map_iff.
      now exists (best, v). }
    destruct (Qeq_bool v 0); [discriminate|].
    destruct (list_index_ok all_authors best Hrange) as (a & Hidx & _).
    rewrite Hidx, bind_ret in E. discriminate. }
  split.
  - intros E. now destruct (H _ E).
  - intros E. now apply (H _ E).
Qed.

End DeterminerOutcomes.

(** * Further properties of the statistic and of merged documents *)

Lemma length_flat_map_const {A B} (f : A -> list B) (l : list A) k :
  (forall x, In x l -> length (f x) = k) ->
  length (flat_map f l) = (k * length l)%nat.
Proof.
  induction l as [|x l IH]; intros H; cbn [flat_map length]; [lia|].
  rewrite length_app, H, IH by (now left || (intros; apply H; now right)).
  lia.
Qed.

Section StatisticExtras.

Variable dist : ndarray -> ndarray -> Q.

(** X6. With a window of one chunk the statistic is the self-distance of the
    chunk: one distance call, on the pair (i, i), whose result is
    returned. *)
Theorem zv_function_window_one (chunks : csr_matrix) (i : Z) :
  - shape0 chunks <= i < shape0 chunks ->
  exists v,
    zv_function dist chunks 1 i = ([DistanceCall i (i - 0)], Ok v) /\
    (v == ChunkDistance dist (chunk_at chunks i) (chunk_at chunks i))%Q.
Proof.
  intros Hi.
  rewrite (zv_function_ok dist chunks 1 i ltac:(lia) Hi ltac:(lia)).
  eexists. split; [reflexivity|].
  unfold ZV. change (Z.to_nat 1) with 1%nat. cbn [big_sum Z.of_nat].
  rewrite Z.sub_0_r.
  set (d := ChunkDistance dist _ _).
  change (1 / inject_Z 1)%Q with 1%Q. ring.
Qed.

(** X7. The cost of the sample builders: for a window of time >= 1 chunks
    zv_z1 evaluates the distance time * max(0, m1 - time - 1) times and
    zv_z2 time * max(0, m2 - 1) times. *)
Theorem sample_builders_distance_calls (dA dB : csr_matrix) (time : Z) :
  1 <= time -> time <= 2 * shape0 dA + shape0 dB + 2 ->
  len (trace (zv_z1 dist (merged dA dB) dA time)) =
  time * Z.max 0 (shape0 dA - time - 1) /\
  len (trace (zv_z2 dist (merged dA dB) dA time)) =
  time * Z.max 0 (shape0 dB - 1).
Proof.
  intros Ht Hb.
  assert (Hcalls : forall idxs,
             len (flat_map (zv_calls time) idxs) = time * len idxs).
  { intros idxs. unfold len.
    rewrite (length_flat_map_const (zv_calls time) idxs (Z.to_nat time)).
    - lia.
    - intros x _. unfold zv_calls. rewrite length_map.
      unfold py_range1, py_range2. rewrite range_from_length. lia. }
  split.
  - rewrite zv_z1_step by lia. cbn [trace fst].
    rewrite Hcalls, py_range2_length. f_equal. lia.
  - rewrite (zv_z2_ok dist (merged dA dB) dA (shape0 dB) time
               ltac:(lia) (shape0_merged dA dB) Hb).
    cbn [trace fst]. rewrite Hcalls, py_range2_length. f_equal. lia.
Qed.

End StatisticExtras.

(** X8. merge_documents stacks document B below document A: the merged
    sequence has len(A) + len(B) chunks and the dimensionality of both;
    its chunk k is chunk k of A for k < len(A) and chunk k - len(A) of B
    from there on; a negative index reaches the chunks of B from the end.
    Documents of different dimensionality are refused with ValueError. *)
Theorem merge_documents_lookup (dA dB : csr_matrix) :
  (shape1 dA = shape1 dB ->
   exists all_chunks,
     merge_documents dA dB = ret all_chunks /\
     shape0 all_chunks = shape0 dA + shape0 dB /\
     shape1 all_chunks = shape1 dB /\
     (forall k, 0 <= k < shape0 dA ->
                getrow all_chunks k = getrow dA k) /\
     (forall k, 0 <= k < shape0 dB ->
                getrow all_chunks (shape0 dA + k) = getrow dB k) /\
     (forall k, - shape0 dB <= k < 0 ->
                getrow all_chunks k = getrow dB k)) /\
  (shape1 dA <> shape1 dB -> merge_documents dA dB = raise ValueError).
Proof.
  split.
  - intros Hd. exists (merged dA dB).
    split; [now apply merge_documents_ok|].
    split; [apply shape0_merged|]. split; [exact Hd|].
    pose proof (shape0_merged dA dB) as Hn.
    pose proof (shape0_nonneg dA) as HA. pose proof (shape0_nonneg dB) as HB.
    assert (Hrow : forall k k', - shape0 (merged dA dB) <= k < shape0 (merged dA dB) ->
                                - shape0 dB <= k' < shape0 dB ->
                                chunk_at (merged dA dB) k = chunk_at dB k' ->
                                getrow (merged dA dB) k = getrow dB k').
    { intros k k' Hk Hk' E. rewrite !getrow_ok by assumption.
      cbn [shape1 merged]. now rewrite E, Hd. }
    split; [|split].
    + intros k Hk. rewrite !getrow_ok by lia. cbn [shape1 merged].
      do 3 f_equal. unfold chunk_at.
      destruct (Z.ltb_spec k 0); [lia|]. cbn [rows merged].
      apply app_nth1. unfold shape0, len in Hk. lia.
    + intros k Hk. apply Hrow; [lia|lia|]. unfold chunk_at.
      destruct (Z.ltb_spec (shape0 dA + k) 0); [lia|].
      destruct (Z.ltb_spec k 0); [lia|]. cbn [rows merged].
      rewrite app_nth2 by (unfold shape0, len; lia).
      f_equal. unfold shape0, len. lia.
    + intros k Hk. apply Hrow; [lia|lia|]. unfold chunk_at.
      destruct (Z.ltb_spec k 0); [|lia]. cbn [rows merged].
      rewrite app_nth2 by (unfold shape0, len in *; lia).
      f_equal. unfold shape0, len in *. lia.
  - intros Hd. unfold merge_documents.
    now destruct (Z.eqb_spec (shape1 dA) (shape1 dB)).
Qed.

(** * document.py: cutting a text into chunks

    [_transform] first cuts every text into pieces,
    [[text[i:i + chunk_size] for i in range(0, len(text), chunk_size)]];
    [text_chunks] is that comprehension.  The vectorisation that follows it
    belongs to scikit-learn and is not modelled. *)

(** A slice bound as Python resolves it: a negative bound counts from the
    end, and the result is clamped to the sequence. *)
Definition slice_bound (n k : Z) : Z :=
  Z.max 0 (Z.min n (if k <? 0 then k + n else k)).

(** [l[i:j]]. *)
Definition py_slice {A} (l : list A) (i j : Z) : list A :=
  let a := slice_bound (len l) i in
  let b := slice_bound (len l) j in
  firstn (Z.to_nat (b - a)) (skipn (Z.to_nat a) l).

Definition text_chunks {A} (text : list A) (chunk_size : Z) : M (list (list A)) :=
  starts <- py_range3 0 (len text) chunk_size ;;
  ret (map (fun i => py_slice text i (i + chunk_size)) starts).

Lemma nth_range_from_step start step n k d :
  (k < n)%nat -> nth k (range_from start step n) d = start + Z.of_nat k * step.
Proof.
  revert start k; induction n as [|n IH]; intros start k Hk; [lia|].
  destruct k as [|k]; cbn [range_from nth]; [lia|].
  rewrite IH by lia. lia.
Qed.

Lemma py_slice_chunk {A} (text : list A) a s :
  0 <= a <= len text -> 0 < s ->
  py_slice text a (a + s) = firstn (Z.to_nat s) (skipn (Z.to_nat a) text).
Proof.
  intros Ha Hs. unfold py_slice, slice_bound.
  destruct (Z.ltb_spec a 0); [lia|]. destruct (Z.ltb_spec (a + s) 0); [lia|].
  replace (Z.max 0 (Z.min (len text) a)) with a by lia.
  destruct (Z_le_gt_dec (a + s) (len text)) as [Hle|Hgt].
  - f_equal. lia.
  - assert (Hl : length (skipn (Z.to_nat a) text) = Z.to_nat (len text - a))
      by (rewrite length_skipn; unfold len; lia).
    rewrite !firstn_all2; [reflexivity|lia|lia].
Qed.

Lemma len_py_slice_chunk {A} (text : list A) a s :
  0 <= a <= len text -> 0 < s ->
  len (py_slice text a (a + s)) = Z.min s (len text - a).
Proof.
  intros Ha Hs. rewrite py_slice_chunk by assumption.
  unfold len in *. rewrite length_firstn, length_skipn. lia.
Qed.

Lemma concat_chunks {A} (text : list A) s k a :
  0 < s -> 0 <= a -> len text <= a + Z.of_nat k * s ->
  ((0 < k)%nat -> a + (Z.of_nat k - 1) * s < len text) ->
  concat (map (fun i => py_slice text i (i + s)) (range_from a s k)) =
  skipn (Z.to_nat a) text.
Proof.
  intros Hs. revert a; induction k as [|k IH]; intros a Ha Hcover Hlast.
  - cbn. rewrite skipn_all2; [reflexivity|]. unfold len in Hcover. lia.
  - cbn [range_from map concat].
    assert (Hlt : a < len text) by (specialize (Hlast ltac:(lia)); nia).
    rewrite py_slice_chunk by lia.
    rewrite IH; [| lia | lia | intros; specialize (Hlast ltac:(lia)); lia].
    replace (Z.to_nat (a + s)) with (Z.to_nat s + Z.to_nat a)%nat by lia.
    rewrite <- skipn_skipn. apply firstn_skipn.
Qed.

(** X9. Cutting a text into chunks of a positive size loses nothing and
    invents nothing: the chunks concatenate back to the text, there are
    ceil(len(text) / chunk_size) of them, none is empty, and chunk k has
    min(chunk_size, len(text) - k * chunk_size) characters, so that only
    the last one can be shorter. *)
Theorem text_chunks_partition {A} (text : list A) (chunk_size : Z) :
  0 < chunk_size ->
  exists chunks,
    text_chunks text chunk_size = ret chunks /\
    concat chunks = text /\
    len chunks = (len text + chunk_size - 1) / chunk_size /\
    forall k, 0 <= k < len chunks ->
              len (nth (Z.to_nat k) chunks []) =
              Z.min chunk_size (len text - k * chunk_size) /\
              0 < len (nth (Z.to_nat k) chunks []).
Proof.
  intros Hs. unfold text_chunks.
  rewrite py_range3_ok, bind_ret by lia.
  eexists. split; [reflexivity|].
  unfold range_list, range_len. destruct (Z.ltb_spec 0 chunk_size); [|lia].
  set (n := len text). assert (Hn : 0 <= n) by (unfold n, len; lia).
  rewrite Z.sub_0_r.
  assert (Hcount : Z.of_nat (Z.to_nat (if 0 <? n then (n - 1) / chunk_size + 1 else 0))
                   = (n + chunk_size - 1) / chunk_size).
  { destruct (Z.ltb_spec 0 n).
    - assert (0 <= (n - 1) / chunk_size) by (apply Z.div_pos; lia).
      replace (n + chunk_size - 1) with (n - 1 + 1 * chunk_size) by lia.
      rewrite Z.div_add by lia. lia.
    - replace n with 0 by lia. rewrite Z.div_small by lia. reflexivity. }
  set (count := Z.to_nat _) in *.
  assert (Hq : 0 < n -> (Z.of_nat count - 1) * chunk_size <= n - 1
                        < Z.of_nat count * chunk_size).
  { intros Hpos. subst count. destruct (Z.ltb_spec 0 n); [|lia].
    pose proof (Z.div_mod (n - 1) chunk_size ltac:(lia)).
    pose proof (Z.mod_pos_bound (n - 1) chunk_size Hs).
    assert (0 <= (n - 1) / chunk_size) by (apply Z.div_pos; lia).
    rewrite Z2Nat.id by lia. nia. }
  assert (Hz : n = 0 -> count = O).
  { intros E. subst count. destruct (Z.ltb_spec 0 n); [lia|reflexivity]. }
  split; [|split].
  - rewrite (concat_chunks text chunk_size count 0 Hs); [reflexivity|lia| |].
    + fold n. destruct (Z.eq_dec n 0); [lia|]. specialize (Hq ltac:(lia)). lia.
    + intros Hc. fold n. destruct (Z.eq_dec n 0) as [E|E];
        [rewrite (Hz E) in Hc; lia|]. specialize (Hq ltac:(lia)). lia.
  - unfold len at 1. rewrite length_map, range_from_length. exact Hcount.
  - intros k Hk. unfold len at 1 in Hk.
    rewrite length_map, range_from_length in Hk.
    assert (Hpos : 0 < n) by (destruct (Z.eq_dec n 0) as [E|E];
                              [rewrite (Hz E) in Hk; lia|lia]).
    specialize (Hq Hpos).
    rewrite (nth_indep _ [] (py_slice text 0 (0 + chunk_size)))
      by (rewrite length_map, range_from_length; lia).
    rewrite (map_nth (fun i => py_slice text i (i + chunk_size))).
    rewrite nth_range_from_step by lia. rewrite Z2Nat.id by lia.
    rewrite len_py_slice_chunk by (fold n; nia). fold n.
    split; [f_equal; lia|nia].
Qed.

(** X10. A chunk size of 0 is refused with ValueError (the step of a range);
    a negative chunk size raises nothing and yields no chunk at all,
    whatever the text. *)
Theorem text_chunks_degenerate {A} (text : list A) (chunk_size : Z) :
  chunk_size <= 0 ->
  text_chunks text chunk_size =
  if chunk_size =? 0 then raise ValueError else ret [].
Proof.
  intros Hs. unfold text_chunks, py_range3.
  destruct (Z.eqb_spec chunk_size 0); [reflexivity|].
  rewrite bind_ret. unfold range_list, range_len.
  destruct (Z.ltb_spec 0 chunk_size); [lia|].
  destruct (Z.ltb_spec (len text) 0); [unfold len in *; lia|].
  reflexivity.
Qed.

(** * datasets.py: loading the corpus

    The index file is taken as already parsed ([json.load]): a list of
    JSON objects with string fields.  Fetching an article and converting a
    PDF are parameters that answer with the text ([inr]) or fail with the
    message of the exception ([inl]).  The lines written by [print] are
    collected in order. *)

Definition json_object : Type := list (string * string).

(** [d[key]] is [Some] value, or [None] where Python raises KeyError. *)
Fixpoint json_get (d : json_object) (key : string) : option string :=
  match d with
  | [] => None
  | (k, v) :: d' => if String.eqb key k then Some v else json_get d' key
  end.

Record dataset_run : Type := {
  printed : list string;
  loaded : result (list string * list string)   (* authors, texts *)
}.

Section Datasets.

Variable download : string -> string + string.
Variable convert_pdf_to_txt : string -> string + string.

(** The loop of dataset_web_articles: the author is read before the
    [try], the link inside it. *)
Fixpoint web_articles_loop (data : list json_object)
         (authors texts out : list string) : dataset_run :=
  match data with
  | [] => {| printed := out; loaded := Ok (authors, texts) |}
  | d :: data' =>
      match json_get d "authors"%string with
      | None => {| printed := out; loaded := Raise KeyError |}
      | Some author =>
          match json_get d "link"%string with
          | None =>
              web_articles_loop data' authors texts
                                (out ++ ["Error downloading 'link'"%string])
          | Some link =>
              match download link with
              | inr text =>
                  web_articles_loop data' (authors ++ [author])
                                    (texts ++ [text]) out
              | inl message =>
                  web_articles_loop data' authors texts
                                    (out ++ [("Error downloading " ++ message)%string])
              end
          end
      end
  end.

Definition dataset_web_articles (data : list json_object) (amount_limit : Z)
  : dataset_run :=
  let data :=
    if 0 <? amount_limit
    then py_slice data 0 (Z.max amount_limit (len data))
    else data in
  web_articles_loop data [] [] [].

(** The loop of dataset_local_books: everything happens inside the [try],
    the text being appended before the author is read. *)
Fixpoint local_books_loop (data : list json_object)
         (authors texts out : list string)
  : list string * (list string * list string) :=
  match data with
  | [] => (out, (authors, texts))
  | d :: data' =>
      match json_get d "path"%string with
      | None =>
          local_books_loop data' authors texts
                           (out ++ ["Error converting pdf 'path'"%string])
      | Some path =>
          match convert_pdf_to_txt path with
          | inl message =>
              local_books_loop data' authors texts
                (out ++ [path; ("Error converting pdf " ++ message)%string])
          | inr text =>
              match json_get d "author"%string with
              | Some author =>
                  local_books_loop data' (authors ++ [author])
                                   (texts ++ [text]) (out ++ [path])
              | None =>
                  local_books_loop data' authors (texts ++ [text])
                    (out ++ [path; "Error converting pdf 'author'"%string])
              end
          end
      end
  end.

Definition dataset_local_books (data : list json_object)
  : list string * (list string * list string) :=
  local_books_loop data [] [] [].

(** What one record contributes. *)
Definition article_of (d : json_object) : list (string * string) :=
  match json_get d "authors"%string, json_get d "link"%string with
  | Some author, Some link =>
      match download link with
      | inr text => [(author, text)]
      | inl _ => []
      end
  | _, _ => []
  end.

Definition book_text_of (d : json_object) : list string :=
  match json_get d "path"%string with
  | Some path =>
      match convert_pdf_to_txt path with
      | inr text => [text]
      | inl _ => []
      end
  | None => []
  end.

Definition book_author_of (d : json_object) : list string :=
  match book_text_of d, json_get d "author"%string with
  | _ :: _, Some author => [author]
  | _, _ => []
  end.

End Datasets.

Lemma py_slice_whole {A} (l : list A) k : len l <= k -> py_slice l 0 k = l.
Proof.
  intros Hk. unfold py_slice, slice_bound.
  assert (0 <= len l) by (unfold len; lia).
  destruct (Z.ltb_spec 0 0); [lia|]. destruct (Z.ltb_spec k 0); [lia|].
  replace (Z.max 0 (Z.min (len l) 0)) with 0 by lia.
  replace (Z.max 0 (Z.min (len l) k)) with (len l) by lia.
  cbn [Z.to_nat skipn]. rewrite Z.sub_0_r. unfold len. rewrite Nat2Z.id.
  apply firstn_all.
Qed.

Lemma combine_fst_snd {A B} (l : list (A * B)) :
  combine (map fst l) (map snd l) = l.
Proof. induction l as [|[a b] l IH]; cbn; [reflexivity|now rewrite IH]. Qed.

Section DatasetsFacts.

Variable download : string -> string + string.
Variable convert_pdf_to_txt : string -> string + string.

Lemma dataset_web_articles_unfold data amount_limit :
  dataset_web_articles download data amount_limit =
  web_articles_loop download data [] [] [].
Proof.
  unfold dataset_web_articles. destruct (0 <? amount_limit); [|reflexivity].
  rewrite py_slice_whole by lia. reflexivity.
Qed.

(** X11. The amount limit of dataset_web_articles limits nothing: the index is
    cut at max(amount_limit, len(data)), which is never below its length,
    so every amount_limit gives what the "no limit" value -1 gives, output
    and result alike; in particular as many articles as the index has can
    be returned under any limit. *)
Theorem dataset_web_articles_limit_ignored
        (data : list json_object) (amount_limit : Z) :
  dataset_web_articles download data amount_limit =
  dataset_web_articles download data (-1) /\
  py_slice data 0 (Z.max amount_limit (len data)) = data.
Proof.
  split.
  - now rewrite !dataset_web_articles_unfold.
  - apply py_slice_whole. lia.
Qed.

Lemma web_articles_loop_ok data authors texts out :
  Forall (fun d => json_get d "authors"%string <> None) data ->
  loaded (web_articles_loop download data authors texts out) =
  Ok (authors ++ map fst (flat_map (article_of download) data),
      texts ++ map snd (flat_map (article_of download) data)).
Proof.
  intros H. revert authors texts out.
  induction H as [|d data Hd _ IH]; intros authors texts out.
  - cbn. now rewrite !app_nil_r.
  - cbn [web_articles_loop flat_map]. unfold article_of at 1 3.
    destruct (json_get d "authors"%string) as [author|]; [|contradiction].
    destruct (json_get d "link"%string) as [link|]; [|apply IH].
    destruct (download link) as [message|text]; [apply IH|].
    rewrite IH. cbn [app map fst snd]. now rewrite <- !app_assoc.
Qed.

Lemma web_articles_loop_key_error data authors texts out :
  Exists (fun d => json_get d "authors"%string = None) data ->
  loaded (web_articles_loop download data authors texts out) = Raise KeyError.
Proof.
  intros H. revert authors texts out.
  induction H as [d data Hd|d data _ IH]; intros authors texts out;
    cbn [web_articles_loop].
  - now rewrite Hd.
  - destruct (json_get d "authors"%string); [|reflexivity].
    destruct (json_get d "link"%string); [|apply IH].
    destruct (download _); apply IH.
Qed.

(** X12. dataset_web_articles returns parallel lists: when every record has
    an 'authors' field, the authors and texts are, in order, those of the
    records whose link is present and was fetched (a failing record is
    skipped in both lists).  A record without 'authors' is not skipped: it
    aborts the whole load with KeyError, whatever was fetched before. *)
Theorem dataset_web_articles_parallel
        (data : list json_object) (amount_limit : Z) :
  let run := dataset_web_articles download data amount_limit in
  (Forall (fun d => json_get d "authors"%string <> None) data ->
   exists authors texts,
     loaded run = Ok (authors, texts) /\
     length authors = length texts /\
     combine authors texts = flat_map (article_of download) data) /\
  (Exists (fun d => json_get d "authors"%string = None) data ->
   loaded run = Raise KeyError).
Proof.
  intros run. subst run. rewrite dataset_web_articles_unfold.
  split.
  - intros H. do 2 eexists. split; [now apply web_articles_loop_ok|].
    cbn [app]. split; [now rewrite !length_map|apply combine_fst_snd].
  - apply web_articles_loop_key_error.
Qed.

Lemma local_books_loop_spec data authors texts out :
  snd (local_books_loop convert_pdf_to_txt data authors texts out) =
  (authors ++ flat_map (book_author_of convert_pdf_to_txt) data,
   texts ++ flat_map (book_text_of convert_pdf_to_txt) data).
Proof.
  revert authors texts out; induction data as [|d data IH];
    intros authors texts out.
  - cbn. now rewrite !app_nil_r.
  - cbn [local_books_loop flat_map].
    remember (flat_map (book_author_of convert_pdf_to_txt) data) as FA.
    remember (flat_map (book_text_of convert_pdf_to_txt) data) as FT.
    unfold book_author_of, book_text_of.
    destruct (json_get d "path"%string) as [path|]; [|subst; apply IH].
    destruct (convert_pdf_to_txt path) as [message|text]; [subst; apply IH|].
    destruct (json_get d "author"%string) as [author|];
      rewrite IH; subst; cbn [app]; now rewrite <- ?app_assoc.
Qed.

Lemma book_lengths data :
  (length (flat_map (book_author_of convert_pdf_to_txt) data)
   <= length (flat_map (book_text_of convert_pdf_to_txt) data))%nat /\
  (Forall (fun d => json_get d "author"%string <> None) data ->
   length (flat_map (book_author_of convert_pdf_to_txt) data)
   = length (flat_map (book_text_of convert_pdf_to_txt) data)) /\
  (Exists (fun d => book_text_of convert_pdf_to_txt d <> [] /\
                    json_get d "author"%string = None) data ->
   (length (flat_map (book_author_of convert_pdf_to_txt) data)
    < length (flat_map (book_text_of convert_pdf_to_txt) data))%nat).
Proof.
  induction data as [|d data (IHle & IHeq & IHlt)].
  - split; [cbn; lia|]. split; [reflexivity|]. intros H. inversion H.
  - cbn [flat_map]. rewrite !length_app.
    assert (Hd : (length (book_author_of convert_pdf_to_txt d)
                  <= length (book_text_of convert_pdf_to_txt d))%nat /\
                 (json_get d "author"%string <> None ->
                  length (book_author_of convert_pdf_to_txt d)
                  = length (book_text_of convert_pdf_to_txt d)) /\
                 (book_text_of convert_pdf_to_txt d <> [] ->
                  json_get d "author"%string = None ->
                  (length (book_author_of convert_pdf_to_txt d)
                   < length (book_text_of convert_pdf_to_txt d))%nat)).
    { unfold book_author_of, book_text_of.
      destruct (json_get d "path"%string) as [path|];
        [|cbn; repeat split; (lia || contradiction)].
      destruct (convert_pdf_to_txt path) as [message|text];
        [cbn; repeat split; (lia || contradiction)|].
      destruct (json_get d "author"%string) as [author|]; cbn;
        repeat split; (lia || contradiction || discriminate). }
    destruct Hd as (Hle & Heq & Hlt).
    split; [lia|]. split.
    + intros H. inversion H as [|? ? Hd Hrest]; subst.
      rewrite Heq, IHeq by assumption. reflexivity.
    + intros H. inversion H as [? ? [Hd1 Hd2]|? ? Hrest]; subst.
      * specialize (Hlt Hd1 Hd2). lia.
      * specialize (IHlt Hrest). lia.
Qed.

(** X13. dataset_local_books never fails, but its two lists are parallel only
    if every converted record has an 'author' field: the text is appended
    before the author is read, so a record that converts and has no
    'author' leaves its text behind without an author, and from there on
    texts[i] no longer belongs to authors[i]. *)
Theorem dataset_local_books_alignment (data : list json_object) :
  let authors := fst (snd (dataset_local_books convert_pdf_to_txt data)) in
  let texts := snd (snd (dataset_local_books convert_pdf_to_txt data)) in
  texts = flat_map (book_text_of convert_pdf_to_txt) data /\
  authors = flat_map (book_author_of convert_pdf_to_txt) data /\
  (length authors <= length texts)%nat /\
  (Forall (fun d => json_get d "author"%string <> None) data ->
   length authors = length texts) /\
  (Exists (fun d => book_text_of convert_pdf_to_txt d <> [] /\
                    json_get d "author"%string = None) data ->
   (length authors < length texts)%nat).
Proof.
  intros authors texts. subst authors texts. unfold dataset_local_books.
  rewrite local_books_loop_spec. cbn [fst snd app].
  split; [reflexivity|]. split; [reflexivity|]. apply book_lengths.
Qed.

End DatasetsFacts.

(** * analysis.py: collecting the runs

    [collection_av_run_data] and [collect_run_data] run the Verifier on
    every ordered pair of documents, and the Determiner on every document
    against all the others. *)

Definition av_row : Type := (Z * Z * Q * bool)%type.
Definition ad_row : Type := (option string * dict)%type.

Section Analysis.

Variable distance_function : ndarray -> ndarray -> Q.
Variable ks_2samp : list Q -> list Q -> Q * Q.

Fixpoint av_run_inner (documents : list csr_matrix)
         (time_start time_end delta_time : Z) (i : Z) (js : list Z)
         (results : list av_row) : M (list av_row) :=
  match js with
  | [] => ret results
  | j :: js' =>
      document_i <- list_index documents i ;;
      document_j <- list_index documents j ;;
      '(result, p_value) <-
        author_verification distance_function ks_2samp document_i document_j
                            time_start time_end delta_time ;;
      av_run_inner documents time_start time_end delta_time i js'
                   (results ++ [(i, j, p_value, result)])
  end.

Fixpoint av_run_outer (documents : list csr_matrix)
         (time_start time_end delta_time : Z) (idxs : list Z)
         (results : list av_row) : M (list av_row) :=
  match idxs with
  | [] => ret results
  | i :: idxs' =>
      results' <- av_run_inner documents time_start time_end delta_time i
                               (py_range1 (len documents)) results ;;
      av_run_outer documents time_start time_end delta_time idxs' results'
  end.

Definition collection_av_run_data (documents : list csr_matrix)
           (time_start time_end delta_time : Z) : M (list av_row) :=
  av_run_outer documents time_start time_end delta_time
               (py_range1 (len documents)) [].

(** [[l[j] for j in range(n) if j != i]]. *)
Definition all_but {A} (l : list A) (n i : Z) : M (list A) :=
  mapM (fun j => list_index l j)
       (filter (fun j => negb (j =? i)) (py_range1 n)).

Fixpoint ad_run_loop (documents : list csr_matrix) (authors : list string)
         (time_start time_end delta_time : Z) (idxs : list Z)
         (ad_results : list ad_row) : M (list ad_row) :=
  match idxs with
  | [] => ret ad_results
  | i :: idxs' =>
      o_documents <- all_but documents (len documents) i ;;
      o_authors <- all_but authors (len documents) i ;;
      document_i <- list_index documents i ;;
      r <- author_determination distance_function ks_2samp document_i
                                o_documents o_authors
                                time_start time_end delta_time ;;
      ad_run_loop documents authors time_start time_end delta_time idxs'
                  (ad_results ++ [r])
  end.

Definition collect_run_data (documents : list csr_matrix)
           (authors : list string) (time_start time_end delta_time : Z)
  : M (list av_row * list ad_row) :=
  av_results <- av_run_outer documents time_start time_end delta_time
                             (py_range1 (len documents)) [] ;;
  ad_results <- ad_run_loop documents authors time_start time_end delta_time
                            (py_range1 (len documents)) [] ;;
  ret (av_results, ad_results).

End Analysis.

(** The list without its element at position [i]. *)
Definition remove_at {A} (i : nat) (l : list A) : list A :=
  firstn i l ++ skipn (S i) l.

Lemma range_from_app start n m :
  range_from start 1 (n + m) =
  range_from start 1 n ++ range_from (start + Z.of_nat n) 1 m.
Proof.
  revert start; induction n as [|n IH]; intros start.
  - cbn. now rewrite Z.add_0_r.
  - cbn [Nat.add range_from app]. rewrite IH. do 3 f_equal. lia.
Qed.

Lemma filter_all {A} (f : A -> bool) l :
  (forall x, In x l -> f x = true) -> filter f l = l.
Proof.
  induction l as [|x l IH]; intros H; [reflexivity|].
  cbn. rewrite H by now left. f_equal. apply IH. intros; apply H; now right.
Qed.

Lemma filter_but i n :
  0 <= i < n ->
  filter (fun j => negb (j =? i)) (py_range1 n) =
  py_range2 0 i ++ py_range2 (i + 1) n.
Proof.
  intros Hi. unfold py_range1, py_range2.
  replace (Z.to_nat (n - 0))
    with (Z.to_nat (i - 0) + (1 + Z.to_nat (n - (i + 1))))%nat by lia.
  rewrite range_from_app, filter_app.
  replace (0 + Z.of_nat (Z.to_nat (i - 0))) with i by lia.
  rewrite (range_from_app i 1). cbn [range_from app filter].
  rewrite Z.eqb_refl. cbn [negb]. replace (i + Z.of_nat 1) with (i + 1) by lia.
  rewrite !filter_all; [reflexivity| |].
  - intros x (k & Hk & ->)%in_range_from.
    destruct (Z.eqb_spec (i + 1 + Z.of_nat k * 1) i); [lia|reflexivity].
  - intros x (k & Hk & ->)%in_range_from.
    destruct (Z.eqb_spec (0 + Z.of_nat k * 1) i); [lia|reflexivity].
Qed.

Lemma map_nth_range {A} (l : list A) d a k :
  (a + k <= length l)%nat ->
  map (fun j => nth (Z.to_nat j) l d) (range_from (Z.of_nat a) 1 k) =
  firstn k (skipn a l).
Proof.
  revert a; induction k as [|k IH]; intros a Hk; [reflexivity|].
  cbn [range_from map]. rewrite Nat2Z.id.
  replace (Z.of_nat a + 1) with (Z.of_nat (S a)) by lia.
  rewrite IH by lia.
  assert (Hs : skipn a l = nth a l d :: skipn (S a) l).
  { clear IH. revert l Hk; induction a as [|a IHa]; intros [|x l] Hk;
      cbn in Hk; try lia; [reflexivity|].
    cbn [skipn nth]. apply IHa. lia. }
  now rewrite Hs.
Qed.

Lemma mapM_list_index {A} (l : list A) d js :
  (forall j, In j js -> 0 <= j < len l) ->
  mapM (fun j => list_index l j) js =
  ret (map (fun j => nth (Z.to_nat j) l d) js).
Proof.
  induction js as [|j js IH]; intros H; [reflexivity|].
  cbn [mapM map].
  destruct (list_index_ok l j (H j (or_introl eq_refl))) as (a & Hidx & Hnth).
  rewrite Hidx, bind_ret, IH, bind_ret by (intros; apply H; now right).
  now rewrite (nth_error_nth _ _ d Hnth).
Qed.

Lemma all_but_ok {A} (l : list A) i :
  0 <= i < len l -> all_but l (len l) i = ret (remove_at (Z.to_nat i) l).
Proof.
  intros Hi. unfold all_but, remove_at.
  destruct l as [|d l']; [unfold len in Hi; cbn in Hi; lia|].
  set (l := d :: l') in *.
  rewrite filter_but by assumption.
  rewrite (mapM_list_index l d)
    by (intros j [Hj|Hj]%in_app_or; apply in_py_range2 in Hj; lia).
  rewrite map_app. unfold py_range2.
  change 0 with (Z.of_nat 0) at 1.
  rewrite (map_nth_range l d 0) by (unfold len in Hi; lia).
  replace (i + 1) with (Z.of_nat (S (Z.to_nat i))) at 1 by lia.
  rewrite (map_nth_range l d (S (Z.to_nat i))) by (unfold len in *; lia).
  cbn [skipn]. rewrite Z.sub_0_r.
  replace (Z.to_nat (len l - (i + 1)))
    with (length (skipn (S (Z.to_nat i)) l))
    by (rewrite length_skipn; unfold len; lia).
  now rewrite firstn_all.
Qed.

Lemma length_remove_at {A} (l : list A) i :
  (i < length l)%nat -> length (remove_at i l) = (length l - 1)%nat.
Proof.
  intros Hi. unfold remove_at.
  rewrite length_app, length_firstn, length_skipn. lia.
Qed.

Lemma length_py_range1_len {A} (l : list A) :
  length (py_range1 (len l)) = length l.
Proof. unfold py_range1, py_range2, len. rewrite range_from_length. lia. Qed.

Lemma in_remove_at {A} (l : list A) i x : In x (remove_at i l) -> In x l.
Proof.
  unfold remove_at. revert i; induction l as [|a l IH]; intros i.
  - destruct i; cbn; tauto.
  - destruct i as [|i]; cbn [firstn skipn app].
    + intros H. now right.
    + intros [H|H]; [now left|right]. now apply (IH i).
Qed.

Lemma Forall2_in_right {A B} (R : A -> B -> Prop) l l' y :
  Forall2 R l l' -> In y l' -> exists x, In x l /\ R x y.
Proof.
  induction 1 as [|x y' l l' Hxy _ IH]; [intros []|].
  intros [<-|Hin].
  - exists x. split; [now left|assumption].
  - destruct (IH Hin) as (x' & Hx' & HR). exists x'. split; [now right|assumption].
Qed.

Section AnalysisFacts.

Variable dist : ndarray -> ndarray -> Q.
Variable ks : list Q -> list Q -> Q * Q.

(** The row recorded for the ordered pair (i, j): the two indices, the
    confidence and the decision of verifying document i against
    document j. *)
Definition av_row_of (documents : list csr_matrix)
           (time_start time_end delta_time : Z)
           (pair : Z * Z) (row : av_row) : Prop :=
  exists document_i document_j result p_value,
    nth_error documents (Z.to_nat (fst pair)) = Some document_i /\
    nth_error documents (Z.to_nat (snd pair)) = Some document_j /\
    value (author_verification dist ks document_i document_j
                               time_start time_end delta_time)
    = Ok (result, p_value) /\
    row = (fst pair, snd pair, p_value, result).

(** The entry recorded for document i: the Determiner's answer for it
    against all the other documents and their authors. *)
Definition ad_row_of (documents : list csr_matrix) (authors : list string)
           (time_start time_end delta_time : Z) (i : Z) (row : ad_row) : Prop :=
  exists document_i,
    nth_error documents (Z.to_nat i) = Some document_i /\
    value (author_determination dist ks document_i
             (remove_at (Z.to_nat i) documents)
             (remove_at (Z.to_nat i) authors)
             time_start time_end delta_time) = Ok row.

Variable documents : list csr_matrix.
Variable time_start time_end delta_time dimension : Z.
Hypothesis same_dimension : Forall (fun d => shape1 d = dimension) documents.
Hypothesis positive_start : 0 < time_start.
Hypothesis positive_step : 0 < delta_time.

Lemma av_run_inner_ok i js results :
  0 <= i < len documents ->
  (forall j, In j js -> 0 <= j < len documents) ->
  exists rows,
    value (av_run_inner dist ks documents time_start time_end delta_time
                        i js results) = Ok (results ++ rows) /\
    Forall2 (av_row_of documents time_start time_end delta_time)
            (map (pair i) js) rows.
Proof.
  intros Hi. revert results; induction js as [|j js IH]; intros results Hjs.
  - exists []. rewrite app_nil_r. split; [reflexivity|constructor].
  - cbn [av_run_inner].
    destruct (list_index_ok documents i Hi) as (di & Hidx & Hnth).
    destruct (list_index_ok documents j (Hjs j (or_introl eq_refl)))
      as (dj & Hjdx & Hjnth).
    rewrite Hidx, bind_ret, Hjdx, bind_ret.
    rewrite Forall_forall in same_dimension.
    assert (Hd : shape1 di = shape1 dj).
    { rewrite (same_dimension di), (same_dimension dj);
        [reflexivity|eapply nth_error_In; eassumption
                    |eapply nth_error_In; eassumption]. }
    destruct (author_verification_total dist ks di dj time_start time_end
                delta_time Hd positive_start positive_step) as ([h p] & Hav).
    rewrite (value_bind _ _ _ Hav).
    destruct (IH (results ++ [(i, j, p, h)])
                 ltac:(intros; apply Hjs; now right)) as (rows & Hv & Hrows).
    exists ((i, j, p, h) :: rows). split.
    + rewrite Hv. now rewrite <- app_assoc.
    + cbn [map]. constructor; [|assumption].
      exists di, dj, h, p. cbn [fst snd]. now repeat split.
Qed.

Lemma av_run_outer_ok idxs results :
  (forall i, In i idxs -> 0 <= i < len documents) ->
  exists rows,
    value (av_run_outer dist ks documents time_start time_end delta_time
                        idxs results) = Ok (results ++ rows) /\
    Forall2 (av_row_of documents time_start time_end delta_time)
            (list_prod idxs (py_range1 (len documents))) rows.
Proof.
  revert results; induction idxs as [|i idxs IH]; intros results Hidxs.
  - exists []. rewrite app_nil_r. split; [reflexivity|constructor].
  - cbn [av_run_outer list_prod].
    destruct (av_run_inner_ok i (py_range1 (len documents)) results
                (Hidxs i (or_introl eq_refl))
                ltac:(now intros j Hj%in_py_range1))
      as (rows1 & Hv1 & Hrows1).
    rewrite (value_bind _ _ _ Hv1).
    destruct (IH (results ++ rows1) ltac:(intros; apply Hidxs; now right))
      as (rows2 & Hv2 & Hrows2).
    exists (rows1 ++ rows2). split.
    + rewrite Hv2. now rewrite <- app_assoc.
    + now apply Forall2_app.
Qed.

Lemma ad_run_loop_ok authors idxs ad_results :
  2 <= len documents ->
  length documents = length authors ->
  (forall i, In i idxs -> 0 <= i < len documents) ->
  exists rows,
    value (ad_run_loop dist ks documents authors time_start time_end
                       delta_time idxs ad_results) = Ok (ad_results ++ rows) /\
    Forall2 (ad_row_of documents authors time_start time_end delta_time)
            idxs rows.
Proof.
  intros Hn Hlen. revert ad_results; induction idxs as [|i idxs IH];
    intros ad_results Hidxs.
  - exists []. rewrite app_nil_r. split; [reflexivity|constructor].
  - cbn [ad_run_loop].
    assert (Hi : 0 <= i < len documents) by (apply Hidxs; now left).
    assert (Hla : len documents = len authors)
      by (unfold len; now rewrite Hlen).
    rewrite all_but_ok, bind_ret by assumption.
    rewrite Hla, all_but_ok, bind_ret by lia.
    destruct (list_index_ok documents i Hi) as (di & Hidx & Hnth).
    rewrite Hidx, bind_ret.
    destruct (author_determination_total dist ks di
                (remove_at (Z.to_nat i) documents)
                (remove_at (Z.to_nat i) authors)
                time_start time_end delta_time) as (r & Hr).
    + intros E. apply (f_equal (@length _)) in E.
      rewrite length_remove_at in E by (unfold len in *; lia).
      unfold len in *. cbn in E. lia.
    + rewrite !length_remove_at by (unfold len in *; lia). now rewrite Hlen.
    + rewrite Forall_forall in *. intros c Hc%in_remove_at.
      rewrite (same_dimension c Hc). symmetry. apply same_dimension.
      eapply nth_error_In, Hnth.
    + assumption.
    + assumption.
    + rewrite (value_bind _ _ _ Hr).
      destruct (IH (ad_results ++ [r]) ltac:(intros; apply Hidxs; now right))
        as (rows & Hv & Hrows).
      exists (r :: rows). split.
      * rewrite Hv. now rewrite <- app_assoc.
      * constructor; [|assumption]. now exists di.
Qed.

(** X14. collection_av_run_data, on documents of one dimensionality and a
    sweep of positive integers, returns one row for every ordered pair of
    documents, the pair of a document with itself included, in row-major
    order: n * n rows, each holding the two indices, then the confidence,
    then the decision of verifying document i against document j. *)
Theorem collection_av_run_data_rows :
  exists results,
    value (collection_av_run_data dist ks documents
                                  time_start time_end delta_time)
    = Ok results /\
    len results = len documents * len documents /\
    Forall2 (av_row_of documents time_start time_end delta_time)
            (list_prod (py_range1 (len documents)) (py_range1 (len documents)))
            results.
Proof.
  destruct (av_run_outer_ok (py_range1 (len documents)) []
              ltac:(now intros i Hi%in_py_range1)) as (rows & Hv & Hrows).
  exists rows. split; [exact Hv|]. split; [|assumption].
  apply Forall2_length in Hrows. unfold len at 1. rewrite <- Hrows.
  rewrite length_prod, length_py_range1_len. unfold len. lia.
Qed.

(** X15. collect_run_data on a corpus of two or more documents with their
    authors: besides the rows of every ordered pair, it records for each
    document the Determiner's answer against all the other documents and
    authors; the document itself is never among its candidates. *)
Theorem collect_run_data_leave_one_out (authors : list string) :
  2 <= len documents ->
  length documents = length authors ->
  exists av_results ad_results,
    value (collect_run_data dist ks documents authors
                            time_start time_end delta_time)
    = Ok (av_results, ad_results) /\
    Forall2 (av_row_of documents time_start time_end delta_time)
            (list_prod (py_range1 (len documents)) (py_range1 (len documents)))
            av_results /\
    Forall2 (ad_row_of documents authors time_start time_end delta_time)
            (py_range1 (len documents)) ad_results /\
    Forall (fun row => len (snd row) = len documents - 1) ad_results.
Proof.
  intros Hn Hlen. unfold collect_run_data.
  destruct (av_run_outer_ok (py_range1 (len documents)) []
              ltac:(now intros i Hi%in_py_range1)) as (av & Hav & Havrows).
  destruct (ad_run_loop_ok authors (py_range1 (len documents)) [] Hn Hlen
              ltac:(now intros i Hi%in_py_range1)) as (ad & Had & Hadrows).
  rewrite (value_bind _ _ _ Hav), (value_bind _ _ _ Had).
  exists av, ad. split; [reflexivity|]. split; [assumption|].
  split; [assumption|].
  apply Forall_forall. intros row Hrow.
  destruct (Forall2_in_right _ _ _ _ Hadrows Hrow) as (i & Hi & di & Hdi & Hrun).
  apply in_py_range1 in Hi.
  pose proof (author_determination_result_keys dist ks _ _ _ _ _ _ _ Hrun)
    as Hkeys.
  apply (f_equal (@length _)) in Hkeys.
  rewrite length_map, length_py_range1_len in Hkeys.
  transitivity (Z.of_nat (length (remove_at (Z.to_nat i) authors)));
    [unfold len; f_equal; exact Hkeys|].
  rewrite length_remove_at by (unfold len in *; lia).
  unfold len in *. lia.
Qed.

End AnalysisFacts.

(** X16. A corpus of a single document makes collect_run_data fail: the
    document is verified against itself, then the Determiner is given the
    empty list of the other documents and raises ValueError. *)
Theorem collect_run_data_single_document
        (dist : ndarray -> ndarray -> Q) (ks : list Q -> list Q -> Q * Q)
        (document : csr_matrix) (authors : list string)
        (time_start time_end delta_time : Z) :
  0 < time_start -> 0 < delta_time ->
  value (collect_run_data dist ks [document] authors
                          time_start time_end delta_time)
  = Raise ValueError.
Proof.
  intros H0 Hs. unfold collect_run_data.
  destruct (av_run_outer_ok dist ks [document] time_start time_end delta_time
              (shape1 document) ltac:(now repeat constructor) H0 Hs
              (py_range1 (len [document])) []
              ltac:(now intros i Hi%in_py_range1)) as (av & Hav & _).
  rewrite (value_bind _ _ _ Hav).
  change (py_range1 (len [document])) with [0].
  cbn [ad_run_loop]. unfold all_but.
  change (filter (fun j => negb (j =? 0)) (py_range1 (len [document])))
    with (@nil Z).
  cbn [mapM]. rewrite !bind_ret.
  change (list_index [document] 0) with (ret document). rewrite bind_ret.
  now rewrite author_determination_no_candidates.
Qed.

(** * document.py: the words kept from a text

    [_text_process] deletes the punctuation marks, lowers the case, splits
    at white space and keeps the words of the stop-word list.  Characters
    are modelled by [ascii]; the model follows Python for texts of ASCII
    characters (codes below 128), which the theorems assume. *)

From Stdlib Require Import Ascii.

Definition code (c : ascii) : nat := nat_of_ascii c.

Definition between (lo hi n : nat) : bool := (lo <=? n)%nat && (n <=? hi)%nat.

(** Membership in string.punctuation. *)
Definition is_punctuation (c : ascii) : bool :=
  between 33 47 (code c) || between 58 64 (code c) ||
  between 91 96 (code c) || between 123 126 (code c).

(** The ASCII characters at which str.split() cuts. *)
Definition is_space (c : ascii) : bool :=
  between 9 13 (code c) || between 28 32 (code c).

(** str.lower() on one ASCII character. *)
Definition lower_char (c : ascii) : ascii :=
  if between 65 90 (code c) then ascii_of_nat (code c + 32) else c.

Definition is_ascii (c : ascii) : Prop := (code c < 128)%nat.

(** [text.split()]: the maximal runs of characters that are not white
    space; [word] holds the current run, last character first. *)
Fixpoint split_words (text word : list ascii) : list (list ascii) :=
  match text with
  | [] => match word with [] => [] | _ :: _ => [rev word] end
  | c :: text' =>
      if is_space c then
        match word with
        | [] => split_words text' []
        | _ :: _ => rev word :: split_words text' []
        end
      else split_words text' (c :: word)
  end.

Definition word_eqb (w1 w2 : list ascii) : bool :=
  if list_eq_dec ascii_dec w1 w2 then true else false.

Definition _text_process (_stop_words : list (list ascii)) (text : list ascii)
  : list (list ascii) :=
  let text := filter (fun char => negb (is_punctuation char)) text in
  let text := map lower_char text in
  filter (fun word => existsb (word_eqb word) _stop_words)
         (split_words text []).

(** A character _text_process can leave in a word. *)
Definition plain_char (c : ascii) : Prop :=
  is_punctuation c = false /\ is_space c = false /\ lower_char c = c.

Lemma lower_char_facts c :
  is_punctuation (lower_char c) = is_punctuation c /\
  lower_char (lower_char c) = lower_char c.
Proof.
  destruct c as [[] [] [] [] [] [] [] []]; split; reflexivity.
Qed.

Lemma split_words_runs (P : ascii -> Prop) text word :
  Forall P text -> Forall P word ->
  Forall (fun c => is_space c = false) word ->
  Forall (fun w => w <> [] /\
                   Forall (fun c => P c /\ is_space c = false) w)
         (split_words text word).
Proof.
  intros Ht. revert word; induction Ht as [|c text Hc _ IH];
    intros word Hw Hs.
  - cbn. destruct word as [|c word]; constructor; [|constructor].
    split.
    + intros E. apply (f_equal (@length _)) in E.
      rewrite length_rev in E. discriminate.
    + apply Forall_rev. rewrite Forall_forall in *.
      intros x Hx. split; auto.
  - cbn [split_words]. destruct (is_space c) eqn:E.
    + destruct word as [|c' word]; [now apply IH|].
      constructor; [|now apply IH]. split.
      * intros E'. apply (f_equal (@length _)) in E'.
        rewrite length_rev in E'. discriminate.
      * apply Forall_rev. rewrite Forall_forall in *.
        intros x Hx. split; auto.
    + apply IH; now constructor.
Qed.

(** X17. Every word _text_process returns is a stop word, is not empty, and
    holds no punctuation mark, no white space and no upper-case letter.
    So an entry of the stop-word list that is empty (a last line break of
    the file) or contains a punctuation mark or a capital is never
    returned, whatever the text. *)
Theorem text_process_words (_stop_words : list (list ascii))
        (text : list ascii) :
  Forall is_ascii text ->
  Forall (fun word => In word _stop_words /\ word <> [] /\
                      Forall plain_char word)
         (_text_process _stop_words text) /\
  forall entry,
    In entry _stop_words ->
    entry = [] \/ Exists (fun c => ~ plain_char c) entry ->
    ~ In entry (_text_process _stop_words text).
Proof.
  intros _.
  assert (H : Forall (fun word => In word _stop_words /\ word <> [] /\
                                  Forall plain_char word)
                     (_text_process _stop_words text)).
  { unfold _text_process. apply Forall_forall. intros w Hw.
    apply filter_In in Hw as [Hw Hstop]. split; [|].
    - apply existsb_exists in Hstop as (e & He & Heq).
      unfold word_eqb in Heq. now destruct (list_eq_dec ascii_dec w e); subst.
    - set (cleaned := map lower_char
                        (filter (fun char => negb (is_punctuation char)) text))
        in *.
      assert (Hclean : Forall (fun c => is_punctuation c = false /\
                                        lower_char c = c) cleaned).
      { apply Forall_forall. intros c (c0 & <- & Hc0)%in_map_iff.
        apply filter_In in Hc0 as [_ Hc0].
        destruct (lower_char_facts c0) as [-> ->].
        split; [now destruct (is_punctuation c0)|reflexivity]. }
      pose proof (split_words_runs _ cleaned [] Hclean
                    ltac:(constructor) ltac:(constructor)) as Hruns.
      rewrite Forall_forall in Hruns. destruct (Hruns w Hw) as [Hne Hall].
      split; [assumption|]. rewrite Forall_forall in *. intros c Hc.
      destruct (Hall c Hc) as [[Hp Hl] Hs]. now repeat split. }
  split; [assumption|].
  intros entry _ Hbad Hin. rewrite Forall_forall in H.
  destruct (H entry Hin) as (_ & Hne & Hplain).
  destruct Hbad as [->|Hex]; [contradiction|].
  apply Exists_exists in Hex as (c & Hc & Hnot).
  rewrite Forall_forall in Hplain. now apply Hnot, Hplain.
Qed.

(** X18. _text_process does not see the case of its input: a text and its
    lower-cased form give the same words. *)
Theorem text_process_ignores_case (_stop_words : list (list ascii))
        (text : list ascii) :
  Forall is_ascii text ->
  _text_process _stop_words (map lower_char text) =
  _text_process _stop_words text.
Proof.
  intros _. unfold _text_process. do 2 f_equal.
  induction text as [|c text IH]; [reflexivity|].
  cbn [map filter]. destruct (lower_char_facts c) as [Hp Hl]. rewrite Hp.
  destruct (is_punctuation c); cbn [negb]; [exact IH|].
  cbn [map]. now rewrite Hl, IH.
Qed.

(** * The further theorems at concrete inputs *)

Definition sample_text : list ascii :=
  list_ascii_of_string "Don't do THAT, I said.".

Definition sample_stop_words : list (list ascii) :=
  map list_ascii_of_string
      ["dont"; "do"; "that"; "i"; "don't"; ""]%string.

Lemma sample_text_ascii : Forall is_ascii sample_text.
Proof. repeat constructor; unfold is_ascii; vm_compute; lia. Qed.

Lemma zv_function_window_one_witness :
  (- shape0 docA <= 2 < shape0 docA) /\
  (exists v,
    zv_function canberra docA 1 2 = ([DistanceCall 2 (2 - 0)], Ok v) /\
    (v == ChunkDistance canberra (chunk_at docA 2) (chunk_at docA 2))%Q).
Proof.
  split; [first [lia | (unfold shape0, len; cbn; lia)]|].
  apply (zv_function_window_one canberra docA 2); first [lia | (unfold shape0, len; cbn; lia)].
Defined.

Lemma sample_builders_distance_calls_witness :
  (1 <= 2 /\ 2 <= 2 * shape0 docA + shape0 docB + 2) /\
  (len (trace (zv_z1 canberra (merged docA docB) docA 2)) =
  2 * Z.max 0 (shape0 docA - 2 - 1) /\
  len (trace (zv_z2 canberra (merged docA docB) docA 2)) =
  2 * Z.max 0 (shape0 docB - 1)).
Proof.
  split; [split; first [lia | (unfold shape0, len; cbn; lia)]|].
  apply (sample_builders_distance_calls canberra docA docB 2); first [lia | (unfold shape0, len; cbn; lia)].
Defined.

Lemma text_chunks_partition_witness :
  (0 < 3) /\
  (exists chunks,
    text_chunks sample_text 3 = ret chunks /\
    concat chunks = sample_text /\
    len chunks = (len sample_text + 3 - 1) / 3 /\
    forall k, 0 <= k < len chunks ->
              len (nth (Z.to_nat k) chunks []) =
              Z.min 3 (len sample_text - k * 3) /\
              0 < len (nth (Z.to_nat k) chunks [])).
Proof.
  split; [lia|].
  apply (text_chunks_partition sample_text 3); lia.
Defined.

Lemma text_chunks_degenerate_witness :
  (-3 <= 0) /\
  (text_chunks sample_text (-3) =
  if (-3) =? 0 then raise ValueError else ret []).
Proof.
  split; [lia|].
  apply (text_chunks_degenerate sample_text (-3)); lia.
Defined.

Lemma collection_av_run_data_rows_witness :
  (Forall (fun d => shape1 d = 2) [docA; docB] /\ 0 < 2 /\ 0 < 1) /\
  (exists results,
    value (collection_av_run_data canberra ks_2samp_surrogate [docA; docB]
                                  2 4 1)
    = Ok results /\
    len results = len [docA; docB] * len [docA; docB] /\
    Forall2 (av_row_of canberra ks_2samp_surrogate [docA; docB] 2 4 1)
            (list_prod (py_range1 (len [docA; docB])) (py_range1 (len [docA; docB])))
            results).
Proof.
  split; [repeat split; try lia; repeat constructor|].
  apply (collection_av_run_data_rows canberra ks_2samp_surrogate [docA; docB] 2 4 1 2); try lia; repeat constructor.
Defined.

Lemma collect_run_data_leave_one_out_witness :
  (Forall (fun d => shape1 d = 2) [docA; docB; docC] /\ 0 < 2 /\ 0 < 1 /\
   2 <= len [docA; docB; docC] /\
   length [docA; docB; docC] = length ["a"%string; "b"%string; "c"%string]) /\
  (exists av_results ad_results,
    value (collect_run_data canberra ks_2samp_surrogate [docA; docB; docC] ["a"%string; "b"%string; "c"%string]
                            2 4 1)
    = Ok (av_results, ad_results) /\
    Forall2 (av_row_of canberra ks_2samp_surrogate [docA; docB; docC] 2 4 1)
            (list_prod (py_range1 (len [docA; docB; docC])) (py_range1 (len [docA; docB; docC])))
            av_results /\
    Forall2 (ad_row_of canberra ks_2samp_surrogate [docA; docB; docC] ["a"%string; "b"%string; "c"%string] 2 4 1)
            (py_range1 (len [docA; docB; docC])) ad_results /\
    Forall (fun row => len (snd row) = len [docA; docB; docC] - 1) ad_results).
Proof.
  split; [repeat split; try (unfold len; cbn; lia); repeat constructor|].
  apply (collect_run_data_leave_one_out canberra ks_2samp_surrogate [docA; docB; docC] 2 4 1 2); try (unfold len; cbn; lia); try reflexivity; repeat constructor.
Defined.

Lemma collect_run_data_single_document_witness :
  (0 < 2 /\ 0 < 1) /\
  (value (collect_run_data canberra ks_2samp_surrogate [docA] ["a"%string]
                          2 4 1)
  = Raise ValueError).
Proof.
  split; [lia|].
  apply (collect_run_data_single_document canberra ks_2samp_surrogate docA ["a"%string] 2 4 1); lia.
Defined.

Lemma text_process_words_witness :
  (Forall is_ascii sample_text) /\
  (Forall (fun word => In word sample_stop_words /\ word <> [] /\
                      Forall plain_char word)
         (_text_process sample_stop_words sample_text) /\
  forall entry,
    In entry sample_stop_words ->
    entry = [] \/ Exists (fun c => ~ plain_char c) entry ->
    ~ In entry (_text_process sample_stop_words sample_text)).
Proof.
  split; [exact sample_text_ascii|].
  apply (text_process_words sample_stop_words sample_text); exact sample_text_ascii.
Defined.

Lemma text_process_ignores_case_witness :
  (Forall is_ascii sample_text) /\
  (_text_process sample_stop_words (map lower_char sample_text) =
  _text_process sample_stop_words sample_text).
Proof.
  split; [exact sample_text_ascii|].
  apply (text_process_ignores_case sample_stop_words sample_text); exact sample_text_ascii.
Defined.
